(** * The document-retrieval pipeline of [rag.py]

    A shallow embedding of [src/rag.py]: the file search, the document
    loading loop, the chunking step, the build/persist/load of the vector
    store and the question step, over an explicit world (file system,
    standard output, calls made to the generation service) threaded through
    a state-and-exception monad.  The collaborators the script imports
    (loaders, text splitter, embedding model, retriever, chat model) are the
    fields of a [Services] record. *)

From Stdlib Require Import String Ascii QArith.
From stdpp Require Import base option list gmap strings.

Local Open Scope string_scope.
Local Open Scope list_scope.

(** ** Strings as Python uses them here *)

(** [s[:n]] *)
Fixpoint str_take (n : nat) (s : string) : string :=
  match n, s with
  | S n', String c s' => String c (str_take n' s')
  | _, _ => ""
  end.

(** [s[n:]] *)
Fixpoint str_drop (n : nat) (s : string) : string :=
  match n, s with
  | S n', String _ s' => str_drop n' s'
  | _, _ => s
  end.

(** [sep.join(parts)] *)
Fixpoint join (sep : string) (parts : list string) : string :=
  match parts with
  | [] => ""
  | [p] => p
  | p :: rest => p +:+ sep +:+ join sep rest
  end.

Definition ascii_lower (c : ascii) : ascii :=
  let n := nat_of_ascii c in
  if (65 <=? n)%nat && (n <=? 90)%nat then ascii_of_nat (n + 32) else c.

(** [s.lower()] on the ASCII range. *)
Fixpoint lower (s : string) : string :=
  match s with
  | "" => ""
  | String c s' => String (ascii_lower c) (lower s')
  end.

Definition is_space (c : ascii) : bool :=
  let n := nat_of_ascii c in
  ((9 <=? n)%nat && (n <=? 13)%nat) || (n =? 32)%nat || ((28 <=? n)%nat && (n <=? 31)%nat).

(** [s.strip() == ""]: nothing but whitespace. *)
Fixpoint blank (s : string) : bool :=
  match s with
  | "" => true
  | String c s' => is_space c && blank s'
  end.

(** [s.rfind(".")], scanning from position [i]. *)
Fixpoint rfind_dot_from (i : nat) (s : string) : option nat :=
  match s with
  | "" => None
  | String c s' =>
      match rfind_dot_from (S i) s' with
      | Some j => Some j
      | None => if Ascii.eqb c "."%char then Some i else None
      end
  end.

Definition nl : string := String (ascii_of_nat 10) "".

(** ** Paths ([pathlib]) *)

Abbreviation Path := (list string).

(** [str(p)] *)
Definition str_path (p : Path) : string := join "/" p.

(** [p.resolve()], the working directory being the root of the file system
    modelled here. *)
Definition resolve (p : Path) : string := str_path p.

(** [p.name] *)
Definition name (p : Path) : string := List.last p "".

(** [p.suffix]: the last dot of the final component and what follows it,
    unless that dot is the first or the last character. *)
Definition suffix (p : Path) : string :=
  let n := name p in
  match rfind_dot_from 0 n with
  | Some i => if (0 <? i)%nat && (i <? String.length n - 1)%nat then str_drop i n else ""
  | None => ""
  end.

(** [q] lies strictly below [p]. *)
Definition below (p q : Path) : Prop := p `prefix_of` q ∧ p ≠ q.

#[global] Instance below_dec p q : Decision (below p q).
Proof. unfold below. apply _. Defined.

(** ** Documents, vectors, the vector store *)

Record Document := mkDocument {
  page_content : string;
  metadata : list (string * string)
}.

Abbreviation Vec := (list Q).

(** A FAISS store: the vectors and, in the same order, their documents. *)
Record FAISS := mkFAISS {
  index : list Vec;
  docstore : list Document
}.

(** ** Exceptions *)

(** [SystemExit] and [KeyboardInterrupt] derive from [BaseException] only;
    everything else raised here derives from [Exception] and carries its
    class name and message. *)
Inductive exn :=
| SystemExit (msg : string)
| KeyboardInterrupt
| Exception (cls msg : string).

Definition is_Exception (e : exn) : bool :=
  match e with Exception _ _ => true | _ => false end.

(** [str(e)] *)
Definition str_exn (e : exn) : string :=
  match e with
  | SystemExit m => m
  | KeyboardInterrupt => ""
  | Exception _ m => m
  end.

Definition result (A : Type) : Type := (exn + A)%type.

(** ** The world *)

Inductive fdata :=
| Raw (bytes : string)
| IndexFile (vs : list Vec)
| PickleFile (ds : list Document).

Inductive node :=
| Dir
| File (d : fdata).

(** The file system, what was printed, the prompts sent to the chat model,
    and [writes_left]: how many more file writes the storage accepts before
    an I/O failure ([None]: it never fails). *)
Record World := mkWorld {
  fs : gmap Path node;
  stdout : list string;
  llm_log : list string;
  writes_left : option nat
}.

(** ** Computations: state and exceptions *)

Definition M (A : Type) : Type := World → result A * World.

Definition ret {A} (a : A) : M A := λ w, (inr a, w).
Definition raise {A} (e : exn) : M A := λ w, (inl e, w).
Definition bind {A B} (m : M A) (k : A → M B) : M B :=
  λ w, match m w with
       | (inr a, w') => k a w'
       | (inl e, w') => (inl e, w')
       end.
Definition lift {A} (r : result A) : M A := λ w, (r, w).

Notation "'let*' x ':=' m 'in' k" := (bind m (λ x, k))
  (at level 10, x name, m at level 100, k at level 200, only parsing).
Notation "m ';;;' k" := (bind m (λ _, k))
  (at level 100, k at level 200, right associativity, only parsing).

(** [try: body / except Exception as e: handler(e)] *)
Definition try_except_Exception {A} (body : M A) (handler : exn → M A) : M A :=
  λ w, match body w with
       | (inl e, w') => if is_Exception e then handler e w' else (inl e, w')
       | r => r
       end.

Definition print (line : string) : M unit :=
  λ w, (inr tt, mkWorld (fs w) (stdout w ++ [line]) (llm_log w) (writes_left w)).

(** ** File-system operations *)

Definition is_file (f : gmap Path node) (p : Path) : bool :=
  match f !! p with Some (File _) => true | _ => false end.

Definition is_dir (f : gmap Path node) (p : Path) : bool :=
  match f !! p with Some Dir => true | _ => false end.

(** [p.rglob("*")]: every entry below a directory; nothing for a path that
    is not a directory. *)
Definition rglob (f : gmap Path node) (p : Path) : list Path :=
  if is_dir f p then filter (below p) (map_to_list f).*1 else [].

(** [p.mkdir(parents=True, exist_ok=True)] for a top-level folder. *)
Definition mkdir (p : Path) : M unit :=
  λ w, match fs w !! p with
       | Some (File _) => (inl (Exception "FileExistsError" (str_path p)), w)
       | Some Dir => (inr tt, w)
       | None => (inr tt, mkWorld (<[p := Dir]> (fs w)) (stdout w) (llm_log w) (writes_left w))
       end.

(** Writing a file in place: it fails, leaving the file system as it was,
    once the storage accepts no more writes. *)
Definition write_file (p : Path) (d : fdata) : M unit :=
  λ w, match writes_left w with
       | Some 0 => (inl (Exception "OSError" (str_path p)), w)
       | Some (S n) => (inr tt, mkWorld (<[p := File d]> (fs w)) (stdout w) (llm_log w) (Some n))
       | None => (inr tt, mkWorld (<[p := File d]> (fs w)) (stdout w) (llm_log w) None)
       end.

Definition read_file (p : Path) : M fdata :=
  λ w, match fs w !! p with
       | Some (File d) => (inr d, w)
       | _ => (inl (Exception "FileNotFoundError" (str_path p)), w)
       end.

(** ** Collaborators *)

Record Services := mkServices {
  TextLoader : Path → result (list Document);
  PyPDFLoader : Path → result (list Document);
  CSVLoader : Path → result (list Document);
  (** [RecursiveCharacterTextSplitter(chunk_size, chunk_overlap).split_documents] *)
  splitter : nat → nat → list Document → result (list Document);
  (** the embedding model, one text at a time *)
  embed : string → result Vec;
  (** [as_retriever(search_type, k).invoke(question)] *)
  retriever : string → nat → FAISS → string → result (list Document);
  (** the chat model's reply to one prompt *)
  llm : string → result string
}.

(** ** CONFIG *)

Definition DOCS_PATH : Path := ["my_docs"].
Definition INDEX_PATH : Path := ["faiss_index"].
Definition REBUILD_INDEX : bool := true.
Definition EMBED_MODEL : string := "models/embedding-001".
Definition TOP_K : nat := 4.
Definition SEARCH_TYPE : string := "mmr".
Definition CHUNK_SIZE : nat := 800.
Definition CHUNK_OVERLAP : nat := 120.
Definition QUESTION : string := "Give me a 2-line summary of the docs and cite sources.".

(** ** STEP 2: find and load documents *)

Definition exts : list string := [".txt"; ".md"; ".pdf"; ".csv"].

Definition find_files (f : gmap Path node) (path : Path) : list Path :=
  if is_file f path then [path]
  else filter (λ p, is_file f p = true ∧ lower (suffix p) ∈ exts) (rglob f path).

Definition warn_line (p : Path) (e : exn) : string :=
  "[WARN] Failed to load " +:+ str_path p +:+ ": " +:+ str_exn e.

(** The body of the [try]: the loader picked by the lower-cased suffix; a
    file of any other suffix adds nothing. *)
Definition load_one (sv : Services) (p : Path) : result (list Document) :=
  let sfx := lower (suffix p) in
  if bool_decide (sfx ∈ [".txt"; ".md"]) then TextLoader sv p
  else if String.eqb sfx ".pdf" then PyPDFLoader sv p
  else if String.eqb sfx ".csv" then CSVLoader sv p
  else inr [].

Fixpoint load_loop (sv : Services) (paths : list Path) (docs : list Document)
  : M (list Document) :=
  match paths with
  | [] => ret docs
  | p :: rest =>
      let* docs' :=
        try_except_Exception
          (let* new := lift (load_one sv p) in ret (docs ++ new))
          (λ e, print (warn_line p e) ;;; ret docs) in
      load_loop sv rest docs'
  end.

Definition load_documents (sv : Services) (paths : list Path) : M (list Document) :=
  load_loop sv paths [].

(** ** STEP 3: split documents into chunks *)

Definition split_documents (sv : Services) (docs : list Document) : M (list Document) :=
  lift (splitter sv CHUNK_SIZE CHUNK_OVERLAP docs).

(** ** STEP 4: make / load the FAISS vector store *)

Fixpoint embed_all (sv : Services) (texts : list string) : result (list Vec) :=
  match texts with
  | [] => inr []
  | t :: rest =>
      match embed sv t with
      | inl e => inl e
      | inr v =>
          match embed_all sv rest with
          | inl e => inl e
          | inr vs => inr (v :: vs)
          end
      end
  end.

(** Modelled from the spec: [build] of §4.2, which the script reaches as the
    library call [FAISS.from_documents(chunks, embeddings)]: one embedding
    per chunk, the first embedding failure aborts the build, and no store is
    built from no chunk. *)
Definition from_documents (sv : Services) (chunks : list Document) : result FAISS :=
  match chunks with
  | [] => inl (Exception "EmptyInputError" "no chunks")
  | _ =>
      match embed_all sv (map page_content chunks) with
      | inl e => inl e
      | inr vs => inr (mkFAISS vs chunks)
      end
  end.

Definition index_faiss (folder : Path) : Path := folder ++ ["index.faiss"].
Definition index_pkl (folder : Path) : Path := folder ++ ["index.pkl"].

(** Modelled from the spec: the snapshot layout of §6, a vector index and a
    parallel record store, which the script asks the library call
    [vs.save_local(folder)] to write at [folder] itself: the folder is made
    if missing, then the two files are written into it one after the
    other. *)
Definition save_local (vs : FAISS) (folder : Path) : M unit :=
  mkdir folder ;;;
  write_file (index_faiss folder) (IndexFile (index vs)) ;;;
  write_file (index_pkl folder) (PickleFile (docstore vs)).

(** Modelled from the spec: [load] of §4.2 over the layout of §6, reached as
    the library call [FAISS.load_local(folder, embeddings, ...)]: both files
    are read back, and a missing one is an error. *)
Definition load_local (folder : Path) : M FAISS :=
  let* i := read_file (index_faiss folder) in
  let* d := read_file (index_pkl folder) in
  match i, d with
  | IndexFile vs, PickleFile ds => ret (mkFAISS vs ds)
  | _, _ => raise (Exception "RuntimeError" (str_path folder))
  end.

Definition build_or_load_faiss (sv : Services) (chunks : list Document) (rebuild : bool)
  : M FAISS :=
  (if rebuild then
     print " Building FAISS index from documents..." ;;;
     let* vs := lift (from_documents sv chunks) in
     mkdir INDEX_PATH ;;;
     save_local vs INDEX_PATH ;;;
     print (" Saved index to: " +:+ resolve INDEX_PATH)
   else ret tt) ;;;
  print (" Loading FAISS index from: " +:+ resolve INDEX_PATH) ;;;
  let* vs := load_local INDEX_PATH in
  print " Loaded FAISS index." ;;;
  ret vs.

(** ** STEP 5: ask the question *)

(** The prompt template with [{context}] and [{input}] filled in; the
    retrieved documents are joined by a blank line. *)
Definition prompt_of (docs : list Document) (question : string) : string :=
  "Answer the following question based only on the provided context:" +:+ nl +:+ nl +:+
  "Context:" +:+ nl +:+ join (nl +:+ nl) (map page_content docs) +:+ nl +:+ nl +:+
  "Question: " +:+ question.

(** One call of the chat model: the prompt is recorded, the reply or the
    failure comes back as it is. *)
Definition invoke_llm (sv : Services) (prompt : string) : M string :=
  λ w, (llm sv prompt, mkWorld (fs w) (stdout w) (llm_log w ++ [prompt]) (writes_left w)).

Definition ask_question (sv : Services) (vectorstore : FAISS) (question : string)
  : M string :=
  let* context := lift (retriever sv SEARCH_TYPE TOP_K vectorstore question) in
  let* answer := invoke_llm sv (prompt_of context question) in
  ret answer.

(** ** MAIN

    The [__main__] block, which the script reaches once both API keys are
    found in the environment. *)

Definition NO_FILES : string :=
  "No documents found in " +:+ str_path DOCS_PATH +:+ ". Add some .txt, .md, .pdf, or .csv files.".
Definition NO_DOCS : string :=
  "No documents loaded from " +:+ str_path DOCS_PATH +:+ ". Check file formats and permissions.".
Definition NO_CHUNKS : string :=
  "No chunks created from documents. Check chunk size and input files.".

(** [find_files] reads the file system of the world. *)
Definition find_files_in (path : Path) : M (list Path) :=
  λ w, (inr (find_files (fs w) path), w).

Definition main (sv : Services) : M unit :=
  let* files := find_files_in DOCS_PATH in
  match files with
  | [] => raise (SystemExit NO_FILES)
  | _ =>
      let* docs := load_documents sv files in
      match docs with
      | [] => raise (SystemExit NO_DOCS)
      | _ =>
          let* chunks := split_documents sv docs in
          match chunks with
          | [] => raise (SystemExit NO_CHUNKS)
          | _ =>
              let* vs := build_or_load_faiss sv chunks REBUILD_INDEX in
              let* answer := ask_question sv vs QUESTION in
              print (nl +:+ " Answer: " +:+ answer)
          end
      end
  end.

(** * Collaborators modelled from the specification

    The text splitter and the retriever are library code the script only
    calls.  The two modules below give them the behaviour the specification
    writes down for the Chunker (§4.1) and the Retriever (§4.3). *)

Module Chunker.

(** Modelled from the spec: the scan of §4.1 ("cutting at [chunk_size]
    characters", consecutive chunks sharing [chunk_overlap] characters);
    the splitter class itself is not part of the repository.  A window of
    [size] characters is cut at offset [off]; the next one starts [step]
    characters later; the last window takes what is left. *)
Fixpoint windows (size step fuel off : nat) (s : string) : list (nat * string) :=
  match fuel with
  | 0 => []
  | S fuel' =>
      if (String.length s <=? size)%nat then [(off, s)]
      else (off, str_take size s)
             :: windows size step fuel' (off + step) (str_drop step s)
  end.

(** Modelled from the spec: the chunks of one content, each with the
    offset it was cut at; an empty content has no chunk. *)
Definition spans (chunk_size chunk_overlap : nat) (content : string)
  : list (nat * string) :=
  match content with
  | "" => []
  | _ => windows chunk_size (chunk_size - chunk_overlap) (String.length content) 0 content
  end.

(** Modelled from the spec: a chunk inherits its document's metadata. *)
Definition chunks_of (chunk_size chunk_overlap : nat) (d : Document) : list Document :=
  map (λ c, mkDocument c.2 (metadata d)) (spans chunk_size chunk_overlap (page_content d)).

(** Modelled from the spec: [split] of §4.1; it fails with
    [EmptyInputError] on no document or on documents that are all blank,
    and otherwise emits the chunks document by document. *)
Definition split (chunk_size chunk_overlap : nat) (docs : list Document)
  : result (list Document) :=
  if forallb (λ d, blank (page_content d)) docs
  then inl (Exception "EmptyInputError" "no usable document")
  else inr (concat (map (chunks_of chunk_size chunk_overlap) docs)).


(** Putting chunks back together: the first one whole, every later one
    without its first [chunk_overlap] characters. *)
Definition reassemble (chunk_overlap : nat) (texts : list string) : string :=
  match texts with
  | [] => ""
  | t :: rest => t +:+ foldr String.append "" (map (str_drop chunk_overlap) rest)
  end.

End Chunker.

Module Retriever.

Inductive strategy := SIMILARITY | DIVERSITY.

(** Modelled from the spec: the "fixed distance metric" of §4.3, here the
    squared L2 distance; a smaller distance is a larger relevance. *)
Definition dist2 (u v : Vec) : Q :=
  foldr Qplus 0%Q (zip_with (λ a b, (a - b) * (a - b))%Q u v).

Definition relevance (q v : Vec) : Q := (- dist2 q v)%Q.

Definition Qmax (a b : Q) : Q := if Qle_bool a b then b else a.

(** Modelled from the spec: [max_similarity(candidate, already_selected)]. *)
Definition max_similarity (c : Vec) (selected : list Vec) : Q :=
  match selected with
  | [] => 0%Q
  | s :: rest => foldr (λ v acc, Qmax (relevance c v) acc) (relevance c s) rest
  end.

(** Modelled from the spec: the score each strategy maximises. *)
Definition score (s : strategy) (lambda : Q) (q : Vec)
    (selected : list (Vec * Document)) (c : Vec * Document) : Q :=
  match s with
  | SIMILARITY => relevance q c.1
  | DIVERSITY =>
      (lambda * relevance q c.1 - (1 - lambda) * max_similarity c.1 (selected.*1))%Q
  end.

(** The best-scoring element of [x :: xs] and the others in their order;
    on a tie the earlier element wins. *)
Fixpoint extract_best {A} (f : A → Q) (x : A) (xs : list A) : A * list A :=
  match xs with
  | [] => (x, [])
  | y :: ys =>
      let r := extract_best f y ys in
      if Qle_bool (f r.1) (f x) then (x, xs) else (r.1, x :: r.2)
  end.

(** Modelled from the spec: pick the best candidate, [k] times or until
    none is left. *)
Fixpoint select (f : list (Vec * Document) → Vec * Document → Q) (k : nat)
    (cands selected : list (Vec * Document)) : list (Vec * Document) :=
  match k, cands with
  | S k', c :: cs =>
      let r := extract_best (f selected) c cs in
      r.1 :: select f k' r.2 (selected ++ [r.1])
  | _, _ => []
  end.

Definition entries (idx : FAISS) : list (Vec * Document) :=
  zip (index idx) (docstore idx).

Definition size (idx : FAISS) : nat := length (entries idx).

(** Modelled from the spec: [query] of §4.3, with its two failures. *)
Definition query (embed_one : string → result Vec) (lambda : Q)
    (idx : FAISS) (question : string) (s : strategy) (k : nat)
  : result (list (Document * Q)) :=
  match embed_one question with
  | inl _ => inl (Exception "QueryEmbeddingError" question)
  | inr q =>
      match entries idx with
      | [] => inl (Exception "EmptyIndexError" "")
      | es => inr (map (λ e, (e.2, relevance q e.1)) (select (score s lambda q) k es []))
      end
  end.

Definition strategy_of (search_type : string) : strategy :=
  if String.eqb search_type "mmr" then DIVERSITY else SIMILARITY.

(** The retriever the script asks the store for, over [query]. *)
Definition as_retriever (embed_one : string → result Vec)
    (search_type : string) (k : nat) (idx : FAISS) (question : string)
  : result (list Document) :=
  match query embed_one (1 # 2) idx question (strategy_of search_type) k with
  | inl e => inl e
  | inr r => inr (r.*1)
  end.

End Retriever.

(** * A concrete set of collaborators *)

Definition demo_loader (p : Path) : result (list Document) :=
  if String.prefix "bad" (name p)
  then inl (Exception "RuntimeError" "cannot read")
  else inr [mkDocument ("The sky is blue. The sky is vast.") [("source", str_path p)]].

Definition demo_embed (t : string) : result Vec :=
  inr [inject_Z (Z.of_nat (String.length t))].

Definition demo_llm (prompt : string) : result string := inr "blue".

Definition demo_sv : Services :=
  mkServices demo_loader demo_loader demo_loader Chunker.split demo_embed
             (Retriever.as_retriever demo_embed) demo_llm.

Definition demo_fs : gmap Path node :=
  {[ ["my_docs"] := Dir;
     ["my_docs"; "a.txt"] := File (Raw "");
     ["my_docs"; "sub"] := Dir;
     ["my_docs"; "sub"; "B.PDF"] := File (Raw "");
     ["my_docs"; "sub"; "notes.docx"] := File (Raw "");
     ["my_docs"; "bad.csv"] := File (Raw "");
     ["solo.bin"] := File (Raw "") ]}.

Definition demo_world : World := mkWorld demo_fs [] [] None.


(** * Reference results, for the statements below *)

(** What the loaders yield for the paths that load, in path order. *)
Definition loaded (sv : Services) (paths : list Path) : list Document :=
  concat (map (λ p, match load_one sv p with inr ds => ds | inl _ => [] end) paths).

(** One warning line per path whose loader fails, in path order. *)
Definition warnings (sv : Services) (paths : list Path) : list string :=
  omap (λ p, match load_one sv p with inl e => Some (warn_line p e) | inr _ => None end) paths.

Definition with_stdout (w : World) (lines : list string) : World :=
  mkWorld (fs w) (stdout w ++ lines) (llm_log w) (writes_left w).

Fixpoint str_repeat (n : nat) (s : string) : string :=
  match n with
  | 0 => ""
  | S n' => s +:+ str_repeat n' s
  end.

(** A document of 1000 characters and a short one. *)
Definition demo_docs : list Document :=
  [mkDocument (str_repeat 100 "0123456789") [("source", "long.txt")];
   mkDocument "The sky is blue. The sky is vast." [("source", "sky.txt")]].

Definition demo_chunks : list Document :=
  Eval vm_compute in
    match Chunker.split CHUNK_SIZE CHUNK_OVERLAP demo_docs with
    | inr cs => cs
    | inl _ => []
    end.

(** The file system once the snapshot of [vs] stands in [folder]. *)
Definition snapshot_written (vs : FAISS) (folder : Path) (f : gmap Path node)
  : gmap Path node :=
  <[index_pkl folder := File (PickleFile (docstore vs))]>
    (<[index_faiss folder := File (IndexFile (index vs))]>
       (<[folder := Dir]> f)).

(** The writes the storage still takes after [n] of them. *)
Definition spend (n : nat) (left : option nat) : option nat :=
  match left with Some m => Some (m - n) | None => None end.

(** Nothing stands in the way of persisting: the index location is not a
    regular file and the storage takes the two writes of a snapshot. *)
Definition storage_ready (w : World) : Prop :=
  is_file (fs w) INDEX_PATH = false ∧
  match writes_left w with Some n => (2 ≤ n)%nat | None => True end.

Definition demo_vs : FAISS :=
  Eval vm_compute in
    match from_documents demo_sv demo_chunks with
    | inr vs => vs
    | inl _ => mkFAISS [] []
    end.

(** One run from the chunks to the retrieved documents: build, persist,
    load, then the retriever [ask_question] configures. *)
Definition query_run (sv : Services) (chunks : list Document) (question : string)
  : M (list Document) :=
  let* vs := build_or_load_faiss sv chunks true in
  lift (retriever sv SEARCH_TYPE TOP_K vs question).

(** A storage that already holds a valid snapshot and accepts one more
    write only. *)
Definition old_vs : FAISS := mkFAISS [[1%Q]] [mkDocument "old" []].
Definition new_chunks : list Document := [mkDocument "new text" []].
Definition prior_fs : gmap Path node := snapshot_written old_vs INDEX_PATH ∅.
Definition crash_world : World := mkWorld prior_fs [] [] (Some 1).

(** A chat model that replies with the empty string. *)
Definition silent_sv : Services :=
  mkServices demo_loader demo_loader demo_loader Chunker.split demo_embed
             (Retriever.as_retriever demo_embed) (λ _, inr "").

(** A chat model that fails. *)
Definition failing_sv : Services :=
  mkServices demo_loader demo_loader demo_loader Chunker.split demo_embed
             (Retriever.as_retriever demo_embed)
             (λ _, inl (Exception "GenerationServiceError" "quota")).

Definition with_llm_call (w : World) (prompt : string) : World :=
  mkWorld (fs w) (stdout w) (llm_log w ++ [prompt]) (writes_left w).








(** * The script as a program: LOAD ENV and STEP 1 *)

(** [os.getenv(key)] as [print] shows it: the value, or [None]. *)
Definition str_getenv (env : gmap string string) (key : string) : string :=
  default "None" (env !! key).

(** [not os.environ.get(key)]: the key is unset, or set to the empty string. *)
Definition key_missing (env : gmap string string) (key : string) : bool :=
  match env !! key with
  | Some (String _ _) => false
  | _ => true
  end.

Definition NO_GOOGLE_KEY : string :=
  " GOOGLE_API_KEY is not set. Check your .env file and path.".
Definition NO_GROQ_KEY : string :=
  " GROQ_API_KEY is not set. Check your .env file and path.".

(** The module-level statements in their order, then the [__main__] block;
    [env] is the environment once [load_dotenv] has run. *)
Definition script (env : gmap string string) (sv : Services) : M unit :=
  print ("Loaded GOOGLE_API_KEY: " +:+ str_getenv env "GOOGLE_API_KEY") ;;;
  print ("Loaded GROQ_API_KEY: " +:+ str_getenv env "GROQ_API_KEY") ;;;
  if key_missing env "GOOGLE_API_KEY" then raise (SystemExit NO_GOOGLE_KEY)
  else if key_missing env "GROQ_API_KEY" then raise (SystemExit NO_GROQ_KEY)
  else main sv.

(** * What a run may change *)

(** The index folder and the two files of a snapshot. *)
Definition index_paths : list Path :=
  [INDEX_PATH; index_faiss INDEX_PATH; index_pkl INDEX_PATH].

(** From [w] to [w']: what was printed and the prompts sent are still
    there, at most [n] prompts were added, and no path other than the index
    folder and its two files was created, changed or removed. *)
Definition evolves (n : nat) (w w' : World) : Prop :=
  stdout w `prefix_of` stdout w' ∧
  llm_log w `prefix_of` llm_log w' ∧
  (length (llm_log w') ≤ length (llm_log w) + n)%nat ∧
  ∀ p, p ∉ index_paths → fs w' !! p = fs w !! p.

(** A computation that, whatever its outcome, leaves the world evolved. *)
Definition keeps {A} (n : nat) (m : M A) : Prop := ∀ w, evolves n w (m w).2.

(** The four lines a rebuild prints. *)
Definition rebuild_lines : list string :=
  [" Building FAISS index from documents...";
   " Saved index to: " +:+ resolve INDEX_PATH;
   " Loading FAISS index from: " +:+ resolve INDEX_PATH;
   " Loaded FAISS index."].

Definition demo_env : gmap string string :=
  {[ "GOOGLE_API_KEY" := "g-secret"; "GROQ_API_KEY" := "q-secret" ]}.

(** An environment in which the first key is set to the empty string. *)
Definition empty_key_env : gmap string string :=
  {[ "GOOGLE_API_KEY" := ""; "GROQ_API_KEY" := "q-secret" ]}.

(** An embedding model that fails on every text. *)
Definition no_embed_sv : Services :=
  mkServices demo_loader demo_loader demo_loader Chunker.split
             (λ _, inl (Exception "EmbeddingServiceError" "quota"))
             (Retriever.as_retriever demo_embed) demo_llm.

(** The world a rebuild from [w] ends in when nothing fails. *)
Definition after_rebuild (vs : FAISS) (w : World) : World :=
  mkWorld (snapshot_written vs INDEX_PATH (fs w)) (stdout w ++ rebuild_lines)
          (llm_log w) (spend 2 (writes_left w)).

(** The demo folder with an earlier snapshot beside it. *)
Definition demo_fs_with_index : gmap Path node :=
  snapshot_written old_vs INDEX_PATH demo_fs.

(** The demo run, stage by stage. *)
Definition demo_files : list Path :=
  Eval vm_compute in find_files demo_fs DOCS_PATH.
Definition demo_loaded : list Document :=
  Eval vm_compute in loaded demo_sv demo_files.
Definition demo_run_chunks : list Document :=
  Eval vm_compute in
    match Chunker.split CHUNK_SIZE CHUNK_OVERLAP demo_loaded with
    | inr cs => cs
    | inl _ => []
    end.
Definition demo_run_vs : FAISS :=
  Eval vm_compute in
    match from_documents demo_sv demo_run_chunks with
    | inr vs => vs
    | inl _ => mkFAISS [] []
    end.
Definition demo_run_ctx : list Document :=
  Eval vm_compute in
    match Retriever.as_retriever demo_embed SEARCH_TYPE TOP_K demo_run_vs QUESTION with
    | inr ctx => ctx
    | inl _ => []
    end.

(** * [ingestion.py]: cleaning review text and dates

    Strings here are sequences of code points below 256. *)

Module Ingestion.

Definition code_in (lo hi : nat) (c : ascii) : bool :=
  let n := nat_of_ascii c in (lo <=? n)%nat && (n <=? hi)%nat.

(** [\d] and the digits [int] reads. *)
Definition is_digit (c : ascii) : bool := code_in 48 57 c.

(** [\s], and what [str.strip()] strips: tab to carriage return, the four
    separators, the space, next line and the no-break space. *)
Definition is_whitespace (c : ascii) : bool :=
  code_in 9 13 c || code_in 28 32 c || code_in 133 133 c || code_in 160 160 c.

(** The punctuation the pattern lists, by code point: full stop, comma,
    exclamation and question mark, semicolon, colon, the single and the
    double quote, the two parentheses and the hyphen. *)
Definition listed_punctuation : list nat := [46; 44; 33; 63; 59; 58; 39; 34; 40; 41; 45].

(** The characters the pattern leaves in place: letters [A-Za-z], digits,
    the listed punctuation and whitespace. *)
Definition kept (c : ascii) : bool :=
  code_in 65 90 c || code_in 97 122 c || is_digit c
  || bool_decide (nat_of_ascii c ∈ listed_punctuation) || is_whitespace c.

(** [re.sub(pattern, '', text)], the pattern being the complement of the
    class above: every other character is deleted. *)
Fixpoint strip_symbols (text : string) : string :=
  match text with
  | "" => ""
  | String c rest => if kept c then String c (strip_symbols rest) else strip_symbols rest
  end.

(** A cell: a string, or a value of another type (a number, [None]). *)
Inductive cell :=
| Str (s : string)
| Other (tag : nat).

Definition remove_emojis (text : cell) : cell :=
  match text with
  | Str s => Str (strip_symbols s)
  | Other _ => text
  end.

Fixpoint all_chars (P : ascii → bool) (s : string) : bool :=
  match s with
  | "" => true
  | String c rest => P c && all_chars P rest
  end.


















End Ingestion.


(** * [ingestion.py]: the run over the two input files *)

Module IngestionRun.

(** CONFIG, each entry read from the environment with a default. *)
Record Config := mkConfig {
  REVIEWS_FILE : string;
  MOBILE_FILE : string;
  OUTPUT_REVIEWS : string;
  OUTPUT_MOBILE : string;
  DATA_DIR : string
}.

Definition default_config : Config :=
  mkConfig "my_docs/review.csv" "my_docs/mobile.csv" "cleaned_reviews.csv"
           "cleaned_mobile.csv" "data".

(** The data-frame library and what is built on it, as the run uses them:
    frames and fitted models are opaque. *)
Record Frames := mkFrames {
  DF : Type;
  Model : Type;
  (** [pd.read_csv(path)] *)
  read_csv : string → result DF;
  (** [len(df)] *)
  rows : DF → nat;
  (** [clean_mobile(df)] and [clean_reviews(df)] *)
  clean_mobile : DF → result DF;
  clean_reviews : DF → result DF;
  (** [set(df['productid'].dropna().unique())] *)
  product_ids : DF → list string;
  (** [df[df['productid'].isin(ids)]] *)
  keep_products : DF → list string → DF;
  (** [col in df.columns] *)
  has_column : DF → string → bool;
  (** [df.dropna(subset=["sellingprice", "discountoffering", "rating"])] *)
  dropna : DF → result DF;
  (** [LGBMRegressor(n_estimators=100, random_state=42).fit(X, y)] *)
  fit : DF → result Model
}.

Inductive artifact (F : Frames) :=
| Source
| Csv (df : DF F)
| Dumped (m : Model F).
Arguments Source {F}.
Arguments Csv {F} df.
Arguments Dumped {F} m.

(** The files by name, and the lines logged (level, colon, message). *)
Record State (F : Frames) := mkState {
  files : gmap string (artifact F);
  log : list string
}.
Arguments mkState {F} files log.
Arguments files {F} s.
Arguments log {F} s.

Definition R (F : Frames) (A : Type) : Type := State F → result A * State F.

Definition rret {F A} (a : A) : R F A := λ s, (inr a, s).
Definition rraise {F A} (e : exn) : R F A := λ s, (inl e, s).
Definition rbind {F A B} (m : R F A) (k : A → R F B) : R F B :=
  λ s, match m s with
       | (inr a, s') => k a s'
       | (inl e, s') => (inl e, s')
       end.
Definition rlift {F A} (r : result A) : R F A := λ s, (r, s).

Notation "'let+' x ':=' m 'in' k" := (rbind m (λ x, k))
  (at level 10, x name, m at level 100, k at level 200, only parsing).
Notation "m ';+' k" := (rbind m (λ _, k))
  (at level 100, k at level 200, right associativity, only parsing).

Definition logging {F} (level message : string) : R F unit :=
  λ s, (inr tt, mkState (files s) (log s ++ [level +:+ ": " +:+ message])).

(** [os.path.exists(path)] *)
Definition path_exists {F} (path : string) : R F bool :=
  λ s, (inr (bool_decide (is_Some (files s !! path))), s).

Definition write {F} (path : string) (a : artifact F) : R F unit :=
  λ s, (inr tt, mkState (<[path := a]> (files s)) (log s)).

(** [os.path.join(a, b)] *)
Definition path_join (a b : string) : string :=
  if String.prefix "/" b then b
  else if bool_decide (a = "") then b
  else if String.eqb (str_drop (String.length a - 1) a) "/" then a +:+ b
  else a +:+ "/" +:+ b.

Fixpoint decimal (fuel n : nat) (acc : string) : string :=
  match fuel with
  | 0 => acc
  | S fuel' =>
      let acc' := String (ascii_of_nat (48 + n mod 10)) acc in
      if (n <? 10)%nat then acc' else decimal fuel' (n / 10) acc'
  end.

(** [str(n)] for a count of rows. *)
Definition str_nat (n : nat) : string := decimal (S n) n "".

Definition train_price_model_lgbm {F} (mobile_df : DF F) : R F unit :=
  if negb (has_column F mobile_df "discountoffering")
  then logging "WARNING" "Missing column for ML: discountoffering"
  else if negb (has_column F mobile_df "rating")
  then logging "WARNING" "Missing column for ML: rating"
  else
    let+ mobile_df := rlift (dropna F mobile_df) in
    if (rows F mobile_df <? 10)%nat
    then logging "WARNING" "Not enough data to train LightGBM model."
    else
      let+ model := rlift (fit F mobile_df) in
      write "data/price_predictor_lgbm.joblib" (Dumped model) ;+
      logging "INFO" "✅ LightGBM price prediction model trained and saved.".

(** [main()].  The local variable [valid_product_ids] is bound in the first
    branch only: it is [None] here while unbound, and reading it then
    raises [UnboundLocalError]. *)
Definition main {F} (cfg : Config) : R F unit :=
  let+ mobile_there := path_exists (MOBILE_FILE cfg) in
  let+ valid_product_ids :=
    (if mobile_there : bool then
       let+ df_mobile := rlift (read_csv F (MOBILE_FILE cfg)) in
       logging "INFO" ("Raw mobile data: " +:+ str_nat (rows F df_mobile) +:+ " rows") ;+
       let+ df_mobile_clean := rlift (clean_mobile F df_mobile) in
       let valid_product_ids := product_ids F df_mobile_clean in
       logging "INFO" ("Cleaned mobile data: " +:+ str_nat (rows F df_mobile_clean) +:+ " rows") ;+
       write (path_join (DATA_DIR cfg) (OUTPUT_MOBILE cfg)) (Csv df_mobile_clean) ;+
       logging "INFO" ("✅ Cleaned mobile data saved: " +:+ DATA_DIR cfg +:+ "/" +:+ OUTPUT_MOBILE cfg) ;+
       train_price_model_lgbm df_mobile_clean ;+
       rret (Some valid_product_ids)
     else
       logging "WARNING" ("Mobile file not found: " +:+ MOBILE_FILE cfg) ;+
       rret None) in
  let+ reviews_there := path_exists (REVIEWS_FILE cfg) in
  if reviews_there : bool then
    let+ df_reviews := rlift (read_csv F (REVIEWS_FILE cfg)) in
    logging "INFO" ("Raw reviews: " +:+ str_nat (rows F df_reviews) +:+ " rows") ;+
    match valid_product_ids with
    | None => rraise (Exception "UnboundLocalError" "valid_product_ids")
    | Some ids =>
        let+ df_reviews :=
          (match ids with
           | [] => rret df_reviews
           | _ =>
               let before := rows F df_reviews in
               let df_reviews := keep_products F df_reviews ids in
               logging "INFO"
                 ("Filtered reviews by productid: " +:+ str_nat (rows F df_reviews)
                  +:+ " rows (kept " +:+ str_nat (rows F df_reviews) +:+ "/"
                  +:+ str_nat before +:+ ")") ;+
               rret df_reviews
           end) in
        let+ df_reviews_clean := rlift (clean_reviews F df_reviews) in
        logging "INFO" ("Cleaned reviews: " +:+ str_nat (rows F df_reviews_clean) +:+ " rows") ;+
        write (path_join (DATA_DIR cfg) (OUTPUT_REVIEWS cfg)) (Csv df_reviews_clean) ;+
        logging "INFO" ("✅ Cleaned reviews saved: " +:+ DATA_DIR cfg +:+ "/" +:+ OUTPUT_REVIEWS cfg)
    end
  else
    logging "WARNING" ("Reviews file not found: " +:+ REVIEWS_FILE cfg).

(** Frames that are lists of rows, for the examples. *)
Definition demo_frames : Frames :=
  mkFrames (list string) unit (λ _, inr ["r1"; "r2"; "r3"]) length inr inr (λ df, df)
           (λ df ids, filter (λ r, r ∈ ids) df) (λ _ _, true) inr (λ _, inr tt).

Definition reviews_only : State demo_frames :=
  mkState {[ "my_docs/review.csv" := Source ]} [].

End IngestionRun.
(** * Properties *)

(** ** Finding files *)

Lemma is_dir_not_file f p : is_dir f p = true → is_file f p = false.
Proof. unfold is_dir, is_file. destruct (f !! p) as [[|d]|]; done. Qed.

Lemma elem_of_rglob f p q :
  is_dir f p = true → (q ∈ rglob f p ↔ below p q ∧ is_Some (f !! q)).
Proof.
  intros Hd. unfold rglob. rewrite Hd, list_elem_of_filter.
  split; intros [Hb Hq]; (split; [done|]).
  - apply list_elem_of_fmap in Hq as [[q' n] [-> Hq]].
    apply elem_of_map_to_list in Hq. by exists n.
  - destruct Hq as [n Hn]. apply list_elem_of_fmap. exists (q, n).
    split; [done|]. by apply elem_of_map_to_list.
Qed.

(** C10. [find_files] returns the path itself, alone, whenever it is an
    existing file, whatever its extension.  The extension filter applies
    only under a directory: the result then lists, each once, exactly the
    regular files below it whose lower-cased suffix is one of [.txt], [.md],
    [.pdf], [.csv]. *)
Theorem find_files_spec (f : gmap Path node) (path : Path) :
  (is_file f path = true → find_files f path = [path]) ∧
  (is_dir f path = true →
     NoDup (find_files f path) ∧
     ∀ q, q ∈ find_files f path ↔
          below path q ∧ is_file f q = true ∧ lower (suffix q) ∈ exts).
Proof.
  split.
  - intros Hf. unfold find_files. by rewrite Hf.
  - intros Hd. unfold find_files. rewrite (is_dir_not_file _ _ Hd). split.
    + apply NoDup_filter. unfold rglob. rewrite Hd.
      apply NoDup_filter, NoDup_fst_map_to_list.
    + intros q. rewrite list_elem_of_filter, (elem_of_rglob _ _ _ Hd).
      split.
      * intros [[Hfile Hsfx] [Hb _]]. done.
      * intros (Hb & Hfile & Hsfx). repeat split; try done; try apply Hb.
        unfold is_file in Hfile. destruct (f !! q); [by eexists | done].
Qed.

(** The two cases on a concrete tree: a lone file with
    a foreign extension is returned as is; under the directory the upper-case
    [B.PDF] is kept and [notes.docx] is not. *)
Lemma find_files_spec_witness :
  find_files demo_fs ["solo.bin"] = [["solo.bin"]] ∧
  (["my_docs"; "sub"; "B.PDF"] ∈ find_files demo_fs DOCS_PATH ∧
   ["my_docs"; "sub"; "notes.docx"] ∉ find_files demo_fs DOCS_PATH).
Proof.
  pose proof (find_files_spec demo_fs ["solo.bin"]) as [H1 _].
  pose proof (find_files_spec demo_fs DOCS_PATH) as [_ H2].
  split; [apply H1; reflexivity|].
  destruct (H2 eq_refl) as [_ H].
  split.
  - apply H. vm_compute. repeat split; try done.
    + by eexists [_; _].
    + do 2 right. left.
  - intros Hin. apply H in Hin as (_ & _ & Hs). vm_compute in Hs.
    repeat (apply elem_of_cons in Hs as [Hs|Hs]; [discriminate|]).
    by apply elem_of_nil in Hs.
Defined.

(** ** Loading documents *)

Lemma with_stdout_nil w : with_stdout w [] = w.
Proof. destruct w. unfold with_stdout. simpl. by rewrite app_nil_r. Qed.

Lemma load_loop_total sv paths : ∀ docs w,
  (∀ p e, p ∈ paths → load_one sv p = inl e → is_Exception e = true) →
  load_loop sv paths docs w =
    (inr (docs ++ loaded sv paths), with_stdout w (warnings sv paths)).
Proof.
  induction paths as [|p rest IH]; intros docs w Hexc.
  - unfold loaded. simpl. unfold ret. by rewrite app_nil_r, with_stdout_nil.
  - assert (Hrest : ∀ q e, q ∈ rest → load_one sv q = inl e → is_Exception e = true)
      by (intros q e Hq; apply Hexc; by right).
    cbn [load_loop]. unfold bind at 1, try_except_Exception, bind, lift, ret, print.
    unfold loaded, warnings. cbn [map concat omap list_omap].
    destruct (load_one sv p) as [e|new] eqn:E.
    + rewrite (Hexc p e (list_elem_of_here _ _) E).
      rewrite (IH docs _ Hrest). unfold loaded, warnings.
      f_equal. destruct w; unfold with_stdout; simpl. by rewrite <- app_assoc.
    + rewrite (IH (docs ++ new) w Hrest). unfold loaded, warnings.
      by rewrite <- app_assoc.
Qed.



(** What [except Exception] does not catch goes through the loop. *)
Lemma load_documents_passes_KeyboardInterrupt (sv : Services) (w : World) :
  TextLoader sv ["a.txt"] = inl KeyboardInterrupt →
  load_documents sv [["a.txt"]] w = (inl KeyboardInterrupt, w).
Proof.
  intros H. unfold load_documents. cbn [load_loop].
  unfold bind, try_except_Exception, lift.
  replace (load_one sv ["a.txt"]) with (TextLoader sv ["a.txt"]) by reflexivity.
  by rewrite H.
Qed.

(** ** Slices of strings *)

Lemma str_app_cons c s t : String c s +:+ t = String c (s +:+ t).
Proof. reflexivity. Qed.

Lemma str_app_nil_l t : "" +:+ t = t.
Proof. reflexivity. Qed.

Lemma str_app_nil_r s : s +:+ "" = s.
Proof. induction s as [|c s IH]; [done | by rewrite str_app_cons, IH]. Qed.

Lemma str_take_drop n : ∀ s, str_take n s +:+ str_drop n s = s.
Proof.
  induction n as [|n IH]; intros [|c s]; simpl; try done.
  by rewrite str_app_cons, IH.
Qed.


Lemma length_str_drop n : ∀ s, String.length (str_drop n s) = String.length s - n.
Proof.
  induction n as [|n IH]; intros [|c s]; simpl; try done.
Qed.

Lemma str_drop_drop m : ∀ n s, str_drop n (str_drop m s) = str_drop (m + n) s.
Proof.
  induction m as [|m IH]; intros n [|c s]; simpl; try done.
  by destruct n.
Qed.


Lemma str_drop_0 s : str_drop 0 s = s.
Proof. by destruct s. Qed.

Lemma str_drop_take (n : nat) : ∀ (m : nat) s,
  (n ≤ m)%nat → str_drop n (str_take m s) +:+ str_drop m s = str_drop n s.
Proof.
  induction n as [|n IH]; intros m s Hle.
  - rewrite !str_drop_0. apply str_take_drop.
  - destruct m as [|m]; [lia|]. destruct s as [|c s]; simpl; [done|].
    apply IH. lia.
Qed.

(** ** The chunker *)

Section Windows.
Variables size ov : nat.
Hypothesis Hov : (ov < size)%nat.

Let step := size - ov.

(** With fuel for every character the scan ends on its own: the texts of
    the windows, each without its first [ov] characters, make up the
    scanned string without its first [ov] characters. *)
Lemma windows_tails fuel : ∀ off s,
  (1 ≤ String.length s ≤ fuel)%nat →
  foldr String.append "" (map (str_drop ov) (Chunker.windows size step fuel off s).*2)
  = str_drop ov s.
Proof.
  induction fuel as [|fuel IH]; intros off s Hlen; [lia|].
  cbn [Chunker.windows]. destruct (String.length s <=? size)%nat eqn:E.
  - simpl. apply str_app_nil_r.
  - apply Nat.leb_gt in E. cbn [fmap list_fmap map foldr snd].
    change (list_fmap _ _ snd ?l) with (l.*2).
    rewrite IH by (rewrite length_str_drop; subst step; lia).
    rewrite str_drop_drop. replace (step + ov)%nat with size by (subst step; lia).
    apply str_drop_take. lia.
Qed.

Lemma windows_reassemble fuel off s :
  (1 ≤ String.length s ≤ fuel)%nat →
  Chunker.reassemble ov (Chunker.windows size step fuel off s).*2 = s.
Proof.
  intros Hlen. destruct fuel as [|fuel]; [lia|].
  cbn [Chunker.windows]. destruct (String.length s <=? size)%nat eqn:E.
  - simpl. apply str_app_nil_r.
  - apply Nat.leb_gt in E. cbn [fmap list_fmap snd Chunker.reassemble].
    change (list_fmap _ _ snd ?l) with (l.*2).
    rewrite windows_tails by (rewrite length_str_drop; subst step; lia).
    rewrite str_drop_drop. replace (step + ov)%nat with size by (subst step; lia).
    apply str_take_drop.
Qed.





End Windows.

Lemma spans_reassemble (size ov : nat) (content : string) :
  (ov < size)%nat →
  Chunker.reassemble ov (Chunker.spans size ov content).*2 = content.
Proof.
  intros Hov. unfold Chunker.spans. destruct content as [|c s]; [done|].
  apply windows_reassemble; [done | simpl; lia].
Qed.

Lemma chunks_of_texts size ov d :
  page_content <$> Chunker.chunks_of size ov d
  = (Chunker.spans size ov (page_content d)).*2.
Proof.
  unfold Chunker.chunks_of. change (map ?f ?l) with (f <$> l).
  rewrite <- list_fmap_compose. by apply list_fmap_ext.
Qed.

Lemma split_documents_chunks sv docs chunks w w' :
  splitter sv = Chunker.split →
  split_documents sv docs w = (inr chunks, w') →
  chunks = concat (Chunker.chunks_of CHUNK_SIZE CHUNK_OVERLAP <$> docs).
Proof.
  intros Hsp. unfold split_documents, lift. rewrite Hsp. unfold Chunker.split.
  destruct (forallb _ docs); [done|]. by intros [= <- _].
Qed.

(** C3. With the chunker of §4.1 as the splitter, the chunks [split_documents]
    returns fall into one group per document, in document order, and each
    group gives back its document's content exactly: the first chunk whole,
    then every later chunk without its first [CHUNK_OVERLAP] characters. *)
Theorem chunking_round_trip (sv : Services) (docs chunks : list Document) (w w' : World) :
  splitter sv = Chunker.split →
  split_documents sv docs w = (inr chunks, w') →
  ∃ groups : list (list Document),
    chunks = concat groups ∧
    Forall2 (λ d g, Chunker.reassemble CHUNK_OVERLAP (page_content <$> g) = page_content d)
            docs groups.
Proof.
  intros Hsp Hrun. exists (Chunker.chunks_of CHUNK_SIZE CHUNK_OVERLAP <$> docs).
  split; [by eapply split_documents_chunks|].
  apply Forall2_fmap_r, Forall_Forall2_diag, Forall_forall. intros d _. unfold compose.
  rewrite chunks_of_texts. apply spans_reassemble. unfold CHUNK_OVERLAP, CHUNK_SIZE. lia.
Qed.

(** The round trip on a document of 1000 characters (two chunks, cut at 0
    and at 680) followed by a short one (one chunk). *)
Lemma chunking_round_trip_witness :
  length demo_chunks = 3 ∧
  ∃ groups : list (list Document),
    demo_chunks = concat groups ∧
    Forall2 (λ d g, Chunker.reassemble CHUNK_OVERLAP (page_content <$> g) = page_content d)
            demo_docs groups.
Proof.
  split; [reflexivity|].
  apply (chunking_round_trip demo_sv demo_docs demo_chunks demo_world demo_world);
    [reflexivity | vm_compute; reflexivity].
Defined.



(** ** Building, persisting and loading the store *)

Lemma bind_inr {A B} (m : M A) (k : A → M B) w a w1 :
  m w = (inr a, w1) → bind m k w = k a w1.
Proof. unfold bind. by intros ->. Qed.

Lemma bind_inl {A B} (m : M A) (k : A → M B) w e w1 :
  m w = (inl e, w1) → bind m k w = (inl e, w1).
Proof. unfold bind. by intros ->. Qed.

Lemma index_files_distinct folder :
  index_faiss folder ≠ index_pkl folder ∧
  folder ≠ index_faiss folder ∧ folder ≠ index_pkl folder.
Proof.
  unfold index_faiss, index_pkl. repeat split.
  - intros H. by apply app_inv_head in H.
  - intros H. apply (f_equal length) in H. rewrite length_app in H. simpl in H. lia.
  - intros H. apply (f_equal length) in H. rewrite length_app in H. simpl in H. lia.
Qed.

Lemma mkdir_ok p w :
  is_file (fs w) p = false →
  mkdir p w = (inr tt, mkWorld (<[p := Dir]> (fs w)) (stdout w) (llm_log w) (writes_left w)).
Proof.
  unfold is_file, mkdir. destruct (fs w !! p) as [[|d]|] eqn:E; try done.
  intros _. rewrite (insert_id _ _ _ E). by destruct w.
Qed.

Lemma write_file_ok p d w :
  writes_left w ≠ Some 0 →
  write_file p d w =
    (inr tt, mkWorld (<[p := File d]> (fs w)) (stdout w) (llm_log w) (spend 1 (writes_left w))).
Proof.
  unfold write_file. destruct (writes_left w) as [[|n]|]; try done.
  intros _. simpl. by rewrite Nat.sub_0_r.
Qed.


Lemma save_local_ok vs folder w :
  is_file (fs w) folder = false →
  match writes_left w with Some n => (2 ≤ n)%nat | None => True end →
  save_local vs folder w =
    (inr tt, mkWorld (snapshot_written vs folder (fs w)) (stdout w) (llm_log w)
                     (spend 2 (writes_left w))).
Proof.
  intros Hnf Hwr. unfold save_local.
  rewrite (bind_inr _ _ _ _ _ (mkdir_ok _ _ Hnf)).
  erewrite bind_inr; [|apply write_file_ok; simpl; destruct (writes_left w) as [[|n]|]; done || lia].
  rewrite write_file_ok; simpl.
  - unfold snapshot_written. do 2 f_equal.
    destruct (writes_left w) as [n|]; simpl; [f_equal; lia | done].
  - destruct (writes_left w) as [[|[|n]]|]; simpl; done || lia.
Qed.

Lemma load_local_snapshot vs folder w :
  fs w !! index_faiss folder = Some (File (IndexFile (index vs))) →
  fs w !! index_pkl folder = Some (File (PickleFile (docstore vs))) →
  load_local folder w = (inr vs, w).
Proof.
  intros H1 H2. unfold load_local, bind, read_file, ret. rewrite H1, H2. by destruct vs.
Qed.

Lemma snapshot_written_lookup vs folder f :
  snapshot_written vs folder f !! index_faiss folder = Some (File (IndexFile (index vs))) ∧
  snapshot_written vs folder f !! index_pkl folder = Some (File (PickleFile (docstore vs))).
Proof.
  destruct (index_files_distinct folder) as (Hne & _ & _). unfold snapshot_written. split.
  - rewrite lookup_insert_ne by done. apply lookup_insert_eq.
  - apply lookup_insert_eq.
Qed.

Lemma snapshot_written_mkdir vs folder f :
  snapshot_written vs folder (<[folder := Dir]> f) = snapshot_written vs folder f.
Proof. unfold snapshot_written. by rewrite insert_insert_eq. Qed.

Lemma is_file_mkdir f p : is_file (<[p := Dir]> f) p = false.
Proof. unfold is_file. by rewrite lookup_insert_eq. Qed.

Lemma rebuild_run sv chunks w vs :
  from_documents sv chunks = inr vs →
  storage_ready w →
  ∃ w', build_or_load_faiss sv chunks true w = (inr vs, w') ∧
        fs w' = snapshot_written vs INDEX_PATH (fs w).
Proof.
  intros Hb [Hnf Hwr]. unfold build_or_load_faiss.
  destruct (snapshot_written_lookup vs INDEX_PATH (fs w)) as [L1 L2].
  erewrite bind_inr; cycle 1.
  { erewrite bind_inr; [|reflexivity].
    erewrite bind_inr; [|unfold lift; by rewrite Hb].
    erewrite bind_inr; [|by apply mkdir_ok].
    erewrite bind_inr; [|apply save_local_ok; [apply is_file_mkdir | done]].
    reflexivity. }
  erewrite bind_inr; [|reflexivity].
  erewrite bind_inr; cycle 1.
  { apply load_local_snapshot; simpl; by rewrite snapshot_written_mkdir. }
  eexists. split; [reflexivity|]. simpl. by rewrite snapshot_written_mkdir.
Qed.



Lemma rebuild_result sv chunks w :
  storage_ready w →
  (build_or_load_faiss sv chunks true w).1 = from_documents sv chunks.
Proof.
  intros Hready. destruct (from_documents sv chunks) as [e|vs] eqn:Hb.
  - unfold build_or_load_faiss.
    erewrite bind_inl; [done|].
    erewrite bind_inr; [|reflexivity].
    erewrite bind_inl; [reflexivity|]. unfold lift. by rewrite Hb.
  - destruct (rebuild_run sv chunks w vs Hb Hready) as (w' & -> & _). done.
Qed.

Lemma rebuild_keeps_ready sv chunks w :
  storage_ready w → writes_left w = None →
  storage_ready (build_or_load_faiss sv chunks true w).2.
Proof.
  intros Hready Hwl. destruct (from_documents sv chunks) as [e|vs] eqn:Hb.
  - unfold build_or_load_faiss.
    erewrite bind_inl; cycle 1.
    { erewrite bind_inr; [|reflexivity].
      erewrite bind_inl; [reflexivity|]. unfold lift. by rewrite Hb. }
    destruct Hready as [Hnf _]. split; simpl; [done | by rewrite Hwl].
  - unfold build_or_load_faiss.
    destruct Hready as [Hnf Hwr].
    destruct (snapshot_written_lookup vs INDEX_PATH (fs w)) as [L1 L2].
    erewrite bind_inr; cycle 1.
    { erewrite bind_inr; [|reflexivity].
      erewrite bind_inr; [|unfold lift; by rewrite Hb].
      erewrite bind_inr; [|by apply mkdir_ok].
      erewrite bind_inr; [|apply save_local_ok; [apply is_file_mkdir | done]].
      reflexivity. }
    erewrite bind_inr; [|reflexivity].
    erewrite bind_inr; cycle 1.
    { apply load_local_snapshot; simpl; by rewrite snapshot_written_mkdir. }
    destruct (index_files_distinct INDEX_PATH) as (_ & N1 & N2).
    split; simpl.
    + unfold is_file, snapshot_written.
      rewrite !insert_insert_eq, lookup_insert_ne, lookup_insert_ne, lookup_insert_eq by done.
      done.
    + by rewrite Hwl.
Qed.

(** C6. Two runs of build, persist and load over the same chunks with the
    same collaborators give the same store, and the same retrieved documents
    for the same question, whatever each run finds in its storage
    beforehand (an earlier snapshot, other files), as long as both storages
    take the writes.  In particular a second run, started where the first
    one ended, repeats the result of the first. *)
Theorem rebuild_deterministic (sv : Services) (chunks : list Document) (question : string)
    (w1 w2 : World) :
  storage_ready w1 → storage_ready w2 →
  (build_or_load_faiss sv chunks true w1).1 = (build_or_load_faiss sv chunks true w2).1 ∧
  (query_run sv chunks question w1).1 = (query_run sv chunks question w2).1 ∧
  (writes_left w1 = None →
   (query_run sv chunks question (build_or_load_faiss sv chunks true w1).2).1
   = (query_run sv chunks question w1).1).
Proof.
  intros H1 H2.
  assert (Hq : ∀ u1 u2, storage_ready u1 → storage_ready u2 →
                 (query_run sv chunks question u1).1 = (query_run sv chunks question u2).1).
  { intros u1 u2 R1 R2.
    pose proof (rebuild_result sv chunks u1 R1) as E1.
    pose proof (rebuild_result sv chunks u2 R2) as E2.
    unfold query_run, bind, lift.
    destruct (build_or_load_faiss sv chunks true u1) as [[e1|v1] x1],
             (build_or_load_faiss sv chunks true u2) as [[e2|v2] x2];
      simpl in *; congruence. }
  split; [by rewrite !rebuild_result|]. split; [by apply Hq|].
  intros Hwl. apply Hq; [by apply rebuild_keeps_ready | done].
Qed.

(** Two runs, one over an empty storage and one over a storage that holds an
    older snapshot of another store. *)
Lemma rebuild_deterministic_witness :
  (build_or_load_faiss demo_sv demo_chunks true demo_world).1
  = (build_or_load_faiss demo_sv demo_chunks true (mkWorld prior_fs ["earlier run"] [] None)).1 ∧
  (query_run demo_sv demo_chunks QUESTION demo_world).1
  = (query_run demo_sv demo_chunks QUESTION (mkWorld prior_fs ["earlier run"] [] None)).1.
Proof.
  pose proof (rebuild_deterministic demo_sv demo_chunks QUESTION demo_world
                (mkWorld prior_fs ["earlier run"] [] None)) as H.
  destruct H as (Ha & Hb & _); try (split; [reflexivity | exact I]).
  by split.
Defined.

(** ** Persisting is done in place *)




(** ** Asking the question *)

(** C8, as the code has it.  Once the retriever has answered,
    [ask_question] calls the chat model exactly once, with the filled-in
    prompt, and hands back what that call gave, as it is: a failure stays the
    failure it was, with no second attempt and no default answer, and a reply
    is the answer, the empty string included.  When the retriever fails the
    chat model is not called. *)
Theorem ask_question_single_attempt (sv : Services) (vs : FAISS) (question : string)
    (w : World) :
  (∀ docs, retriever sv SEARCH_TYPE TOP_K vs question = inr docs →
     ask_question sv vs question w =
       (llm sv (prompt_of docs question), with_llm_call w (prompt_of docs question))) ∧
  (∀ e, retriever sv SEARCH_TYPE TOP_K vs question = inl e →
     ask_question sv vs question w = (inl e, w)).
Proof.
  split.
  - intros docs Hr. unfold ask_question, bind, lift, invoke_llm, ret, with_llm_call.
    rewrite Hr. by destruct (llm sv (prompt_of docs question)).
  - intros e Hr. unfold ask_question, bind, lift. by rewrite Hr.
Qed.

(** A failing chat model: one call is recorded and its failure is what
    [ask_question] raises. *)
Lemma ask_question_single_attempt_witness :
  ∃ w', ask_question failing_sv demo_vs QUESTION demo_world
          = (inl (Exception "GenerationServiceError" "quota"), w') ∧
        length (llm_log w') = 1.
Proof.
  destruct (ask_question_single_attempt failing_sv demo_vs QUESTION demo_world) as [H _].
  eexists. split; [apply H; vm_compute; reflexivity | reflexivity].
Defined.

(** An empty reply is not turned into an error (against §4.4): with a chat
    model that replies with the empty string, [ask_question] returns the
    empty string as the answer. *)
Lemma empty_answer_returned :
  ∃ w', ask_question silent_sv demo_vs QUESTION demo_world = (inr "", w') ∧
        length (llm_log w') = 1.
Proof. eexists. split; [vm_compute; reflexivity | reflexivity]. Qed.

(** ** The retriever of §4.3 *)






(** ** The script on empty input *)





(** * Further properties of the script *)

(** ** What [find_files] returns *)

(** Whatever the path is (a file, a directory, nothing at all), every path
    [find_files] returns is an existing regular file, the path itself or one
    below it; a path that does not exist gives the empty list. *)
Theorem find_files_only_regular_files (f : gmap Path node) (path : Path) :
  (∀ q, q ∈ find_files f path → is_file f q = true ∧ (q = path ∨ below path q)) ∧
  (f !! path = None → find_files f path = []).
Proof.
  split.
  - intros q Hq. unfold find_files in Hq. destruct (is_file f path) eqn:Hf.
    + apply list_elem_of_singleton in Hq as ->. auto.
    + apply list_elem_of_filter in Hq as [[Hfile _] Hq]. split; [done|right].
      unfold rglob in Hq. destruct (is_dir f path); [|by apply elem_of_nil in Hq].
      by apply list_elem_of_filter in Hq as [Hb _].
  - intros Hnone. unfold find_files, rglob, is_file, is_dir. by rewrite Hnone.
Qed.

(** ** From the files found to the loaders *)

Lemma load_one_other_suffix sv p : lower (suffix p) ∉ exts → load_one sv p = inr [].
Proof.
  intros Hn. unfold load_one, exts in *.
  rewrite bool_decide_eq_false_2.
  2:{ intros H. apply Hn. apply elem_of_cons in H as [->|H]; [by left|].
      apply list_elem_of_singleton in H as ->. right; by left. }
  destruct (String.eqb_spec (lower (suffix p)) ".pdf") as [E|_];
    [exfalso; apply Hn; rewrite E; do 2 right; by left|].
  destruct (String.eqb_spec (lower (suffix p)) ".csv") as [E|_];
    [exfalso; apply Hn; rewrite E; do 3 right; by left|].
  done.
Qed.

(** Under a directory every file [find_files] returns reaches a loader in
    [load_documents], the one its lower-cased suffix selects: the suffixes
    the search keeps are the suffixes the loading loop knows, so none of
    these files falls through the loop untouched. *)
Theorem found_files_reach_a_loader (sv : Services) (f : gmap Path node) (path p : Path) :
  is_dir f path = true →
  p ∈ find_files f path →
  (lower (suffix p) ∈ [".txt"; ".md"] ∧ load_one sv p = TextLoader sv p) ∨
  (lower (suffix p) = ".pdf" ∧ load_one sv p = PyPDFLoader sv p) ∨
  (lower (suffix p) = ".csv" ∧ load_one sv p = CSVLoader sv p).
Proof.
  intros Hd Hp. unfold find_files in Hp. rewrite (is_dir_not_file _ _ Hd) in Hp.
  apply list_elem_of_filter in Hp as [[_ Hs] _]. unfold exts in Hs. unfold load_one.
  destruct (decide (lower (suffix p) ∈ [".txt"; ".md"])) as [Hin|Hnin].
  - left. by rewrite bool_decide_eq_true_2.
  - right. rewrite bool_decide_eq_false_2 by done.
    destruct (String.eqb_spec (lower (suffix p)) ".pdf") as [E|N1]; [by left|right].
    destruct (String.eqb_spec (lower (suffix p)) ".csv") as [E|N2]; [done|].
    exfalso. apply Hnin.
    repeat (apply elem_of_cons in Hs as [Hs|Hs]; [first [done | rewrite Hs; by left | rewrite Hs; right; by left]|]).
    by apply elem_of_nil in Hs.
Qed.

(** The upper-case [B.PDF] of the demo folder goes to the PDF loader. *)
Lemma found_files_reach_a_loader_witness :
  load_one demo_sv ["my_docs"; "sub"; "B.PDF"] = PyPDFLoader demo_sv ["my_docs"; "sub"; "B.PDF"].
Proof.
  assert (Hin : ["my_docs"; "sub"; "B.PDF"] ∈ find_files demo_fs DOCS_PATH)
    by (vm_compute; do 2 right; left).
  destruct (found_files_reach_a_loader demo_sv demo_fs DOCS_PATH _ eq_refl Hin)
    as [[Hs _]|[[_ H]|[Hs _]]].
  - vm_compute in Hs. exfalso.
    repeat (apply elem_of_cons in Hs as [Hs|Hs]; [discriminate|]).
    by apply elem_of_nil in Hs.
  - exact H.
  - vm_compute in Hs. discriminate.
Defined.

(** Paths whose suffix is none of the four are passed over in silence: no
    loader is consulted, no document is added and no warning is printed,
    whatever the loaders would do. *)
Theorem load_documents_skips_other_suffixes (sv : Services) (paths : list Path) (w : World) :
  (∀ p, p ∈ paths → lower (suffix p) ∉ exts) →
  load_documents sv paths w = (inr [], w).
Proof.
  intros Hn. unfold load_documents. induction paths as [|p rest IH]; [done|].
  cbn [load_loop]. unfold bind at 1, try_except_Exception, bind, lift, ret.
  rewrite load_one_other_suffix by (apply Hn; left). simpl.
  apply IH. intros q Hq. apply Hn. by right.
Qed.

(** Two files of foreign suffixes, with loaders that would fail on the
    first: nothing is loaded and nothing is printed. *)
Lemma load_documents_skips_other_suffixes_witness :
  load_documents demo_sv [["bad.bin"]; ["my_docs"; "sub"; "notes.docx"]] demo_world
  = (inr [], demo_world).
Proof.
  apply load_documents_skips_other_suffixes. intros p Hp Hin.
  apply elem_of_cons in Hp as [->|Hp];
    [|apply list_elem_of_singleton in Hp as ->];
    vm_compute in Hin;
    repeat (apply elem_of_cons in Hin as [Hin|Hin]; [discriminate|]);
    by apply elem_of_nil in Hin.
Defined.

(** ** What a run may change *)

Lemma evolves_refl n w : evolves n w w.
Proof. unfold evolves. repeat split; try done. lia. Qed.

Lemma evolves_trans n k w1 w2 w3 :
  evolves n w1 w2 → evolves k w2 w3 → evolves (n + k) w1 w3.
Proof.
  intros (S1 & L1 & N1 & F1) (S2 & L2 & N2 & F2). unfold evolves. repeat split.
  - by etrans.
  - by etrans.
  - lia.
  - intros p Hp. by rewrite F2, F1.
Qed.

Lemma evolves_weaken n k w w' : (n ≤ k)%nat → evolves n w w' → evolves k w w'.
Proof. intros Hle (S1 & L1 & N1 & F1). unfold evolves. repeat split; try done. lia. Qed.

Lemma keeps_weaken {A} n k (m : M A) : (n ≤ k)%nat → keeps n m → keeps k m.
Proof. intros Hle Hm w. eapply evolves_weaken; [done | apply Hm]. Qed.

Lemma keeps_ret {A} (a : A) : keeps 0 (ret a).
Proof. intros w. apply evolves_refl. Qed.

Lemma keeps_raise {A} e : keeps 0 (@raise A e).
Proof. intros w. apply evolves_refl. Qed.

Lemma keeps_lift {A} (r : result A) : keeps 0 (lift r).
Proof. intros w. apply evolves_refl. Qed.

Lemma keeps_bind {A B} n k (m : M A) (f : A → M B) :
  keeps n m → (∀ a, keeps k (f a)) → keeps (n + k) (bind m f).
Proof.
  intros Hm Hf w. unfold bind. specialize (Hm w).
  destruct (m w) as [[e|a] w1]; simpl in *.
  - eapply evolves_weaken; [|done]. lia.
  - eapply evolves_trans; [done | apply Hf].
Qed.

Lemma keeps_try {A} n k (body : M A) (handler : exn → M A) :
  keeps n body → (∀ e, keeps k (handler e)) →
  keeps (n + k) (try_except_Exception body handler).
Proof.
  intros Hb Hh w. unfold try_except_Exception. specialize (Hb w).
  destruct (body w) as [[e|a] w1]; simpl in *.
  - destruct (is_Exception e).
    + eapply evolves_trans; [done | apply Hh].
    + eapply evolves_weaken; [|done]. lia.
  - eapply evolves_weaken; [|done]. lia.
Qed.

Lemma keeps_print line : keeps 0 (print line).
Proof.
  intros w. unfold print, evolves. simpl. repeat split; try done; try lia.
  by apply prefix_app_r.
Qed.

Lemma keeps_mkdir p : p ∈ index_paths → keeps 0 (mkdir p).
Proof.
  intros Hp w. unfold mkdir. destruct (fs w !! p) as [[|d]|]; try apply evolves_refl.
  unfold evolves. simpl. repeat split; try done; try lia.
  intros q Hq. apply lookup_insert_ne. by intros ->.
Qed.

Lemma keeps_write_file p d : p ∈ index_paths → keeps 0 (write_file p d).
Proof.
  intros Hp w. unfold write_file.
  destruct (writes_left w) as [[|n]|]; try apply evolves_refl;
    unfold evolves; simpl; (repeat split; try done; try lia);
    intros q Hq; apply lookup_insert_ne; by intros ->.
Qed.

Lemma keeps_read_file p : keeps 0 (read_file p).
Proof. intros w. unfold read_file. destruct (fs w !! p) as [[|d]|]; apply evolves_refl. Qed.

Lemma index_paths_elems :
  INDEX_PATH ∈ index_paths ∧ index_faiss INDEX_PATH ∈ index_paths ∧
  index_pkl INDEX_PATH ∈ index_paths.
Proof. unfold index_paths. repeat split; [left | right; left | do 2 right; left]. Qed.

Ltac keeps_leaf :=
  first
    [ apply keeps_ret | apply keeps_raise | apply keeps_lift | apply keeps_print
    | apply keeps_read_file
    | apply keeps_mkdir; apply index_paths_elems
    | apply keeps_write_file; apply index_paths_elems ].

(** One step of a sequence: the first computation by [tac], then the rest. *)
Ltac keeps_seq tac := apply (keeps_bind 0 0); [tac | intros ?].

Lemma keeps_save_local vs : keeps 0 (save_local vs INDEX_PATH).
Proof. unfold save_local. do 2 (keeps_seq keeps_leaf). keeps_leaf. Qed.

Lemma keeps_load_local : keeps 0 (load_local INDEX_PATH).
Proof.
  unfold load_local. keeps_seq keeps_leaf. keeps_seq keeps_leaf.
  match goal with i : fdata, d : fdata |- _ => destruct i, d end; keeps_leaf.
Qed.

Lemma keeps_build_or_load_faiss sv chunks rebuild :
  keeps 0 (build_or_load_faiss sv chunks rebuild).
Proof.
  unfold build_or_load_faiss. apply (keeps_bind 0 0).
  - destruct rebuild; [|apply keeps_ret].
    do 3 (keeps_seq keeps_leaf). keeps_seq ltac:(apply keeps_save_local). keeps_leaf.
  - intros _. keeps_seq keeps_leaf. keeps_seq ltac:(apply keeps_load_local).
    keeps_seq keeps_leaf. keeps_leaf.
Qed.

Lemma keeps_load_loop sv paths : ∀ docs, keeps 0 (load_loop sv paths docs).
Proof.
  induction paths as [|p rest IH]; intros docs; [apply keeps_ret|].
  cbn [load_loop]. apply (keeps_bind 0 0); [|intros ?; apply IH].
  apply (keeps_try 0 0); [|intros e]; keeps_seq keeps_leaf; keeps_leaf.
Qed.

Lemma keeps_invoke_llm sv prompt : keeps 1 (invoke_llm sv prompt).
Proof.
  intros w. unfold invoke_llm, evolves. simpl. repeat split; try done.
  - by apply prefix_app_r.
  - rewrite length_app. simpl. lia.
Qed.

Lemma keeps_ask_question sv vs question : keeps 1 (ask_question sv vs question).
Proof.
  unfold ask_question. apply (keeps_bind 0 1); [apply keeps_lift|]. intros ctx.
  apply (keeps_bind 1 0); [apply keeps_invoke_llm | intros ?; apply keeps_ret].
Qed.

Lemma keeps_main sv : keeps 1 (main sv).
Proof.
  unfold main. apply (keeps_bind 0 1); [intros w; apply evolves_refl|].
  intros [|p files]; [apply (keeps_weaken 0); [lia | apply keeps_raise]|].
  apply (keeps_bind 0 1); [apply keeps_load_loop|].
  intros [|d docs]; [apply (keeps_weaken 0); [lia | apply keeps_raise]|].
  apply (keeps_bind 0 1); [apply keeps_lift|].
  intros [|c chunks]; [apply (keeps_weaken 0); [lia | apply keeps_raise]|].
  apply (keeps_bind 0 1); [apply keeps_build_or_load_faiss|]. intros vs.
  apply (keeps_bind 1 0); [apply keeps_ask_question | intros ?; apply keeps_print].
Qed.

(** Whatever the collaborators do and however the run ends, [main] only
    adds to what was printed, sends at most one prompt to the chat model,
    and creates, changes or removes no path other than the index folder and
    its two files: the documents it reads are never touched. *)
Theorem main_touches_only_the_index (sv : Services) (w : World) :
  let w' := (main sv w).2 in
  stdout w `prefix_of` stdout w' ∧
  llm_log w `prefix_of` llm_log w' ∧
  (length (llm_log w') ≤ length (llm_log w) + 1)%nat ∧
  ∀ p, p ∉ [INDEX_PATH; index_faiss INDEX_PATH; index_pkl INDEX_PATH] →
       fs w' !! p = fs w !! p.
Proof. apply keeps_main. Qed.

(** ** More on loading *)

Lemma load_loop_frame sv paths : ∀ docs w,
  let w' := (load_loop sv paths docs w).2 in
  fs w' = fs w ∧ llm_log w' = llm_log w ∧ writes_left w' = writes_left w.
Proof.
  induction paths as [|p rest IH]; intros docs w; [done|].
  cbn [load_loop]. unfold bind at 1, try_except_Exception, bind, lift, ret, print.
  destruct (load_one sv p) as [e|new].
  - destruct (is_Exception e); [|done].
    match goal with |- context [load_loop sv rest ?d ?u] => apply (IH d u) end.
  - apply IH.
Qed.

(** In every outcome, a propagated exception included, [load_documents]
    changes nothing but the output, which it only extends: the file system,
    the prompts sent and the storage are as before. *)
Theorem load_documents_only_prints (sv : Services) (paths : list Path) (w : World) :
  let w' := (load_documents sv paths w).2 in
  fs w' = fs w ∧ llm_log w' = llm_log w ∧ writes_left w' = writes_left w ∧
  stdout w `prefix_of` stdout w'.
Proof.
  intros w'. destruct (load_loop_frame sv paths [] w) as (H1 & H2 & H3).
  repeat split; try done. apply (keeps_load_loop sv paths [] w).
Qed.

(** An exception that is not an [Exception] (an interrupt, an exit) ends
    the loop where it is raised: it leaves [load_documents] as it is, the
    documents loaded so far are not returned, the later paths are not
    visited, and only the warnings of the paths before it were printed. *)
Theorem load_documents_aborts (sv : Services) (before after : list Path) (p : Path)
    (e : exn) (w : World) :
  (∀ q e', q ∈ before → load_one sv q = inl e' → is_Exception e' = true) →
  load_one sv p = inl e →
  is_Exception e = false →
  load_documents sv (before ++ p :: after) w
  = (inl e, with_stdout w (warnings sv before)).
Proof.
  intros Hbefore Hp He. unfold load_documents. generalize (@nil Document) as docs.
  revert w. induction before as [|q rest IH]; intros w docs.
  - cbn [app load_loop]. unfold bind at 1, try_except_Exception, bind, lift.
    rewrite Hp, He. unfold warnings. simpl. by rewrite with_stdout_nil.
  - assert (Hrest : ∀ q' e', q' ∈ rest → load_one sv q' = inl e' → is_Exception e' = true)
      by (intros q' e' Hq'; apply Hbefore; by right).
    cbn [app load_loop]. unfold bind at 1, try_except_Exception, bind, lift, ret, print.
    unfold warnings. cbn [omap list_omap].
    destruct (load_one sv q) as [eq|new] eqn:E.
    + rewrite (Hbefore q eq (list_elem_of_here _ _) E).
      rewrite (IH Hrest). unfold warnings, with_stdout. simpl. by rewrite <- app_assoc.
    + by rewrite (IH Hrest).
Qed.

(** An interrupt on the second of three files: the first file's document is
    lost with it and the third file is never read. *)
Lemma load_documents_aborts_witness :
  load_documents
    (mkServices demo_loader (λ _, inl KeyboardInterrupt) demo_loader Chunker.split
                demo_embed (Retriever.as_retriever demo_embed) demo_llm)
    ([["a.txt"]] ++ ["b.pdf"] :: [["c.csv"]]) demo_world
  = (inl KeyboardInterrupt, with_stdout demo_world []).
Proof.
  apply load_documents_aborts; [|reflexivity|reflexivity].
  intros q e' Hq He'. apply list_elem_of_singleton in Hq as ->. vm_compute in He'. discriminate.
Defined.

(** ** More on the store *)

Lemma load_local_fs folder w1 w2 :
  fs w1 = fs w2 → (load_local folder w1).1 = (load_local folder w2).1.
Proof.
  intros Hfs. unfold load_local, bind, read_file, ret, raise. rewrite Hfs.
  destruct (fs w2 !! index_faiss folder) as [[|i]|]; try done. rewrite Hfs.
  destruct (fs w2 !! index_pkl folder) as [[|d]|]; try done.
  destruct i; try done; by destruct d.
Qed.

Lemma load_local_world folder w : (load_local folder w).2 = w.
Proof.
  unfold load_local, bind, read_file, ret, raise.
  destruct (fs w !! index_faiss folder) as [[|i]|]; try done.
  destruct (fs w !! index_pkl folder) as [[|d]|]; try done.
  destruct i; try done; by destruct d.
Qed.

Lemma load_only_run sv chunks w :
  build_or_load_faiss sv chunks false w
  = match (load_local INDEX_PATH w).1 with
    | inl e => (inl e, with_stdout w [" Loading FAISS index from: " +:+ resolve INDEX_PATH])
    | inr vs => (inr vs, with_stdout w [" Loading FAISS index from: " +:+ resolve INDEX_PATH;
                                        " Loaded FAISS index."])
    end.
Proof.
  unfold build_or_load_faiss.
  erewrite bind_inr; [|reflexivity]. erewrite bind_inr; [|reflexivity].
  set (w1 := mkWorld _ _ _ _).
  assert (Hfs : fs w1 = fs w) by done.
  rewrite <- (load_local_fs INDEX_PATH w1 w Hfs).
  pose proof (load_local_world INDEX_PATH w1) as Hw.
  unfold bind. destruct (load_local INDEX_PATH w1) as [[e|vs] w2]; simpl in *; subst w2.
  - done.
  - unfold print, ret, with_stdout. simpl. by rewrite <- app_assoc.
Qed.

(** With the rebuild flag off, [build_or_load_faiss] writes nothing and
    leaves the chunks and the embedding model aside: it returns what
    [INDEX_PATH] holds, and when one of the two files of a snapshot is not
    there it raises, it does not fall back to building one. *)
Theorem load_only_reads (sv : Services) (chunks : list Document) (w : World) :
  let r := build_or_load_faiss sv chunks false w in
  r.1 = (load_local INDEX_PATH w).1 ∧
  fs r.2 = fs w ∧ writes_left r.2 = writes_left w ∧ llm_log r.2 = llm_log w ∧
  (fs w !! index_faiss INDEX_PATH = None ∨ fs w !! index_pkl INDEX_PATH = None →
   ∃ e, r.1 = inl e).
Proof.
  intros r. subst r. rewrite load_only_run.
  split; [by destruct (load_local INDEX_PATH w).1|].
  repeat split; try by destruct (load_local INDEX_PATH w).1.
  intros Hnone. unfold load_local, bind, read_file, ret, raise.
  destruct (fs w !! index_faiss INDEX_PATH) as [[|i]|] eqn:E1; simpl; try by eexists.
  destruct Hnone as [|Hnone]; [done|]. rewrite Hnone. simpl. by eexists.
Qed.

Lemma bind_inr_inv {A B} (m : M A) (k : A → M B) w b w' :
  bind m k w = (inr b, w') → ∃ a w1, m w = (inr a, w1) ∧ k a w1 = (inr b, w').
Proof.
  unfold bind. destruct (m w) as [[e|a] w1]; [done|]. intros H. by exists a, w1.
Qed.

(** What a rebuild has returned, a later run with the flag off returns
    again: whenever [build_or_load_faiss] with the flag on has ended well
    with a store, a load-only call over the file system it left (other
    chunks, other collaborators, more output in between) gives that very
    store. *)
Theorem rebuild_then_load_only (sv sv' : Services) (chunks chunks' : list Document)
    (w w1 w2 : World) (vs : FAISS) :
  build_or_load_faiss sv chunks true w = (inr vs, w1) →
  fs w2 = fs w1 →
  (build_or_load_faiss sv' chunks' false w2).1 = inr vs.
Proof.
  intros Hrun Hfs. unfold build_or_load_faiss in Hrun.
  apply bind_inr_inv in Hrun as (u & wa & _ & Hrun).
  apply bind_inr_inv in Hrun as (u' & wb & Hp & Hrun).
  apply bind_inr_inv in Hrun as (vs' & wc & Hload & Hrun).
  apply bind_inr_inv in Hrun as (u'' & wd & Hp' & Hret).
  unfold ret in Hret. injection Hret as -> ->.
  unfold print in Hp'. injection Hp' as _ <-.
  pose proof (load_local_world INDEX_PATH wb) as Hw. rewrite Hload in Hw. simpl in Hw. subst wc.
  rewrite load_only_run.
  rewrite (load_local_fs INDEX_PATH w2 wb) by (by rewrite Hfs).
  by rewrite Hload.
Qed.

(** A rebuild over the demo folder, then a load-only call by other
    collaborators with no chunk at hand. *)
Lemma rebuild_then_load_only_witness :
  (build_or_load_faiss no_embed_sv [] false
     (build_or_load_faiss demo_sv demo_chunks true demo_world).2).1 = inr demo_vs.
Proof.
  eapply (rebuild_then_load_only demo_sv no_embed_sv demo_chunks [] demo_world);
    [vm_compute; reflexivity | reflexivity].
Defined.

(** When the store cannot be built (an embedding fails, there is no chunk),
    [build_or_load_faiss] raises that failure at once: one line was printed,
    the index folder was not made, no file was written, and what a load
    would have found at [INDEX_PATH] before it still finds. *)
Theorem failed_build_writes_nothing (sv : Services) (chunks : list Document) (w : World)
    (e : exn) :
  from_documents sv chunks = inl e →
  build_or_load_faiss sv chunks true w
  = (inl e, with_stdout w [" Building FAISS index from documents..."]) ∧
  (load_local INDEX_PATH (build_or_load_faiss sv chunks true w).2).1
  = (load_local INDEX_PATH w).1.
Proof.
  intros Hb.
  assert (Hrun : build_or_load_faiss sv chunks true w
                 = (inl e, with_stdout w [" Building FAISS index from documents..."])).
  { unfold build_or_load_faiss. erewrite bind_inl; [done|].
    erewrite bind_inr; [|reflexivity].
    erewrite bind_inl; [reflexivity|]. unfold lift. by rewrite Hb. }
  split; [done|]. rewrite Hrun. by apply load_local_fs.
Qed.

(** An embedding model that is out of quota, over a storage that holds an
    earlier snapshot: the failure comes out and the snapshot is still what a
    load returns. *)
Lemma failed_build_writes_nothing_witness :
  build_or_load_faiss no_embed_sv new_chunks true crash_world
  = (inl (Exception "EmbeddingServiceError" "quota"),
     with_stdout crash_world [" Building FAISS index from documents..."]) ∧
  (load_local INDEX_PATH (build_or_load_faiss no_embed_sv new_chunks true crash_world).2).1
  = inr old_vs.
Proof.
  destruct (failed_build_writes_nothing no_embed_sv new_chunks crash_world
              (Exception "EmbeddingServiceError" "quota") eq_refl) as [H1 H2].
  split; [exact H1|]. rewrite H2. vm_compute. reflexivity.
Defined.

(** ** The whole run *)

Lemma rebuild_run_exact sv chunks w vs :
  from_documents sv chunks = inr vs →
  storage_ready w →
  build_or_load_faiss sv chunks true w = (inr vs, after_rebuild vs w).
Proof.
  intros Hb [Hnf Hwr]. unfold build_or_load_faiss.
  destruct (snapshot_written_lookup vs INDEX_PATH (fs w)) as [L1 L2].
  erewrite bind_inr; cycle 1.
  { erewrite bind_inr; [|reflexivity].
    erewrite bind_inr; [|unfold lift; by rewrite Hb].
    erewrite bind_inr; [|by apply mkdir_ok].
    erewrite bind_inr; [|apply save_local_ok; [apply is_file_mkdir | done]].
    reflexivity. }
  erewrite bind_inr; [|reflexivity].
  erewrite bind_inr; cycle 1.
  { apply load_local_snapshot; simpl; by rewrite snapshot_written_mkdir. }
  unfold bind, print, ret, after_rebuild, rebuild_lines. simpl.
  rewrite snapshot_written_mkdir. do 2 f_equal. by rewrite <- !app_assoc.
Qed.

Lemma main_up_to_the_question sv w files docs chunks vs :
  find_files (fs w) DOCS_PATH = files → files ≠ [] →
  (∀ q e, q ∈ files → load_one sv q = inl e → is_Exception e = true) →
  loaded sv files = docs → docs ≠ [] →
  splitter sv CHUNK_SIZE CHUNK_OVERLAP docs = inr chunks → chunks ≠ [] →
  from_documents sv chunks = inr vs →
  storage_ready w →
  main sv w
  = bind (ask_question sv vs QUESTION) (λ answer, print (nl +:+ " Answer: " +:+ answer))
         (after_rebuild vs (with_stdout w (warnings sv files))).
Proof.
  intros Hfiles Hf Hexc Hdocs Hd Hsplit Hc Hb Hready.
  unfold main. erewrite bind_inr; [|unfold find_files_in; by rewrite Hfiles].
  destruct files as [|p files]; [done|].
  erewrite bind_inr; [|unfold load_documents; by apply load_loop_total].
  rewrite Hdocs. destruct docs as [|d docs]; [done|]. cbn [app].
  erewrite bind_inr; [|unfold split_documents, lift; by rewrite Hsplit].
  destruct chunks as [|c chunks]; [done|].
  erewrite bind_inr; [reflexivity|]. unfold REBUILD_INDEX.
  apply rebuild_run_exact; [done|]. destruct Hready as [H1 H2]. by split.
Qed.

(** A run in which nothing fails: files are found, at least one document
    loads, chunks come out, the store is built and the storage takes it, the
    retriever and the chat model answer.  Then [main] ends well; the
    snapshot of the store stands at [INDEX_PATH]; one prompt was sent; and
    the output is, in this order, the warnings of the files that did not
    load, the four lines of the rebuild, and the answer. *)
Theorem main_answers (sv : Services) (w : World) (files : list Path)
    (docs chunks ctx : list Document) (vs : FAISS) (answer : string) :
  find_files (fs w) DOCS_PATH = files → files ≠ [] →
  (∀ q e, q ∈ files → load_one sv q = inl e → is_Exception e = true) →
  loaded sv files = docs → docs ≠ [] →
  splitter sv CHUNK_SIZE CHUNK_OVERLAP docs = inr chunks → chunks ≠ [] →
  from_documents sv chunks = inr vs →
  storage_ready w →
  retriever sv SEARCH_TYPE TOP_K vs QUESTION = inr ctx →
  llm sv (prompt_of ctx QUESTION) = inr answer →
  main sv w
  = (inr tt,
     mkWorld (snapshot_written vs INDEX_PATH (fs w))
             (stdout w ++ warnings sv files ++ rebuild_lines ++ [nl +:+ " Answer: " +:+ answer])
             (llm_log w ++ [prompt_of ctx QUESTION])
             (spend 2 (writes_left w))).
Proof.
  intros Hfiles Hf Hexc Hdocs Hd Hsplit Hc Hb Hready Hr Hl.
  rewrite (main_up_to_the_question sv w files docs chunks vs) by done.
  unfold ask_question, bind, lift, invoke_llm, ret, print, after_rebuild, with_stdout.
  rewrite Hr. simpl. rewrite Hl. simpl. do 2 f_equal. by rewrite <- !app_assoc.
Qed.

Lemma demo_loaders_raise_Exceptions (q : Path) (e : exn) :
  load_one demo_sv q = inl e → is_Exception e = true.
Proof.
  unfold load_one, demo_sv, demo_loader. cbn [TextLoader PyPDFLoader CSVLoader].
  repeat match goal with |- context [if ?b then _ else _] => destruct b end;
    intros [= <-] || discriminate; reflexivity.
Qed.

(** The run over the demo folder: three files found, one of them unreadable;
    the answer is printed last and the snapshot stands on disk. *)
Lemma main_answers_witness :
  main demo_sv demo_world
  = (inr tt,
     mkWorld (snapshot_written demo_run_vs INDEX_PATH demo_fs)
             (["[WARN] Failed to load my_docs/bad.csv: cannot read"] ++ rebuild_lines
                ++ [nl +:+ " Answer: blue"])
             [prompt_of demo_run_ctx QUESTION] None).
Proof.
  apply (main_answers demo_sv demo_world demo_files demo_loaded demo_run_chunks
           demo_run_ctx demo_run_vs "blue");
    try (vm_compute; reflexivity); try discriminate.
  - intros q e _. apply demo_loaders_raise_Exceptions.
  - split; [reflexivity | exact I].
Defined.

(** The index is persisted before the question is asked: when the retriever
    or the chat model fails, [main] raises that failure, nothing more is
    printed after the lines of the rebuild, and the snapshot that has just
    been written stays at [INDEX_PATH]. *)
Theorem main_fails_after_persisting (sv : Services) (w : World) (files : list Path)
    (docs chunks : list Document) (vs : FAISS) (e : exn) :
  find_files (fs w) DOCS_PATH = files → files ≠ [] →
  (∀ q e', q ∈ files → load_one sv q = inl e' → is_Exception e' = true) →
  loaded sv files = docs → docs ≠ [] →
  splitter sv CHUNK_SIZE CHUNK_OVERLAP docs = inr chunks → chunks ≠ [] →
  from_documents sv chunks = inr vs →
  storage_ready w →
  (retriever sv SEARCH_TYPE TOP_K vs QUESTION = inl e ∨
   ∃ ctx, retriever sv SEARCH_TYPE TOP_K vs QUESTION = inr ctx ∧
          llm sv (prompt_of ctx QUESTION) = inl e) →
  ∃ w', main sv w = (inl e, w') ∧
        fs w' = snapshot_written vs INDEX_PATH (fs w) ∧
        stdout w' = stdout w ++ warnings sv files ++ rebuild_lines ∧
        (load_local INDEX_PATH w').1 = inr vs.
Proof.
  intros Hfiles Hf Hexc Hdocs Hd Hsplit Hc Hb Hready Hfail.
  rewrite (main_up_to_the_question sv w files docs chunks vs) by done.
  destruct (snapshot_written_lookup vs INDEX_PATH (fs w)) as [L1 L2].
  unfold ask_question, bind, lift, invoke_llm, ret, after_rebuild, with_stdout.
  destruct Hfail as [Hr|(ctx & Hr & Hl)]; rewrite Hr; simpl; [|rewrite Hl; simpl];
    (eexists; split; [reflexivity|]; simpl; split; [done|]; split; [by rewrite <- app_assoc|]);
    (erewrite load_local_snapshot; [done | exact L1 | exact L2]).
Qed.

(** The demo run with a chat model that fails: the failure comes out of
    [main], after the snapshot was written. *)
Lemma main_fails_after_persisting_witness :
  ∃ w', main failing_sv demo_world = (inl (Exception "GenerationServiceError" "quota"), w') ∧
        fs w' = snapshot_written demo_run_vs INDEX_PATH (fs demo_world) ∧
        stdout w' = stdout demo_world ++ warnings failing_sv demo_files ++ rebuild_lines ∧
        (load_local INDEX_PATH w').1 = inr demo_run_vs.
Proof.
  apply (main_fails_after_persisting failing_sv demo_world demo_files demo_loaded
           demo_run_chunks demo_run_vs);
    try (vm_compute; reflexivity); try discriminate.
  - intros q e' _. apply demo_loaders_raise_Exceptions.
  - split; [reflexivity | exact I].
  - right. exists demo_run_ctx. split; vm_compute; reflexivity.
Defined.

(** ** Start-up: the API keys *)

Lemma script_start env sv w :
  script env sv w
  = (if key_missing env "GOOGLE_API_KEY" then raise (SystemExit NO_GOOGLE_KEY)
     else if key_missing env "GROQ_API_KEY" then raise (SystemExit NO_GROQ_KEY)
     else main sv)
      (with_stdout w ["Loaded GOOGLE_API_KEY: " +:+ str_getenv env "GOOGLE_API_KEY";
                      "Loaded GROQ_API_KEY: " +:+ str_getenv env "GROQ_API_KEY"]).
Proof.
  unfold script. erewrite bind_inr; [|reflexivity]. erewrite bind_inr; [|reflexivity].
  f_equal. unfold with_stdout. simpl. by rewrite <- app_assoc.
Qed.

(** A key that is unset, or set to the empty string, stops the script with
    [SystemExit] before [main] starts: the Google key is looked at first,
    only the two start-up lines were printed, no file was touched and no
    prompt was sent. *)
Theorem script_needs_both_keys (env : gmap string string) (sv : Services) (w : World) :
  key_missing env "GOOGLE_API_KEY" = true ∨ key_missing env "GROQ_API_KEY" = true →
  script env sv w
  = (inl (SystemExit (if key_missing env "GOOGLE_API_KEY" then NO_GOOGLE_KEY else NO_GROQ_KEY)),
     with_stdout w ["Loaded GOOGLE_API_KEY: " +:+ str_getenv env "GOOGLE_API_KEY";
                    "Loaded GROQ_API_KEY: " +:+ str_getenv env "GROQ_API_KEY"]).
Proof.
  intros Hmiss. rewrite script_start.
  destruct (key_missing env "GOOGLE_API_KEY"); [done|].
  destruct Hmiss as [|Hq]; [done|]. by rewrite Hq.
Qed.

(** A Google key set to the empty string counts as missing. *)
Lemma script_needs_both_keys_witness :
  script empty_key_env demo_sv demo_world
  = (inl (SystemExit NO_GOOGLE_KEY),
     with_stdout demo_world ["Loaded GOOGLE_API_KEY: "; "Loaded GROQ_API_KEY: q-secret"]).
Proof.
  apply (script_needs_both_keys empty_key_env demo_sv demo_world). left. reflexivity.
Defined.

(** Every run of the script, however it ends, starts its output with the
    values of the two API keys in clear; after that it only adds to the
    output, sends at most one prompt, and touches no path other than the
    index folder and its two files. *)
Theorem script_prints_the_keys (env : gmap string string) (sv : Services) (w : World)
    (google groq : string) :
  env !! "GOOGLE_API_KEY" = Some google →
  env !! "GROQ_API_KEY" = Some groq →
  let w' := (script env sv w).2 in
  (stdout w ++ ["Loaded GOOGLE_API_KEY: " +:+ google; "Loaded GROQ_API_KEY: " +:+ groq])
    `prefix_of` stdout w' ∧
  (length (llm_log w') ≤ length (llm_log w) + 1)%nat ∧
  ∀ p, p ∉ [INDEX_PATH; index_faiss INDEX_PATH; index_pkl INDEX_PATH] →
       fs w' !! p = fs w !! p.
Proof.
  intros Hg Hq w'. subst w'. rewrite script_start. unfold str_getenv. rewrite Hg, Hq. simpl.
  set (w0 := with_stdout w _).
  assert (H : evolves 1 w0 ((if key_missing env "GOOGLE_API_KEY"
                              then raise (SystemExit NO_GOOGLE_KEY)
                              else if key_missing env "GROQ_API_KEY"
                                   then raise (SystemExit NO_GROQ_KEY) else main sv) w0).2).
  { destruct (key_missing env "GOOGLE_API_KEY"); [apply evolves_refl|].
    destruct (key_missing env "GROQ_API_KEY"); [apply evolves_refl | apply keeps_main]. }
  destruct H as (S1 & _ & N1 & F1). repeat split; try done.
Qed.

(** The demo run discloses both demo keys on its first two lines. *)
Lemma script_prints_the_keys_witness :
  ["Loaded GOOGLE_API_KEY: g-secret"; "Loaded GROQ_API_KEY: q-secret"]
    `prefix_of` stdout (script demo_env demo_sv demo_world).2.
Proof.
  apply (script_prints_the_keys demo_env demo_sv demo_world "g-secret" "q-secret");
    reflexivity.
Defined.

(** * [ingestion.py] *)

(** ** Cleaning the text of a review *)

Lemma strip_symbols_kept s : Ingestion.all_chars Ingestion.kept (Ingestion.strip_symbols s) = true.
Proof.
  induction s as [|c s IH]; [done|]. cbn [Ingestion.strip_symbols].
  destruct (Ingestion.kept c) eqn:E; [|done]. cbn [Ingestion.all_chars]. by rewrite E, IH.
Qed.

Lemma strip_symbols_fixed s :
  Ingestion.all_chars Ingestion.kept s = true → Ingestion.strip_symbols s = s.
Proof.
  induction s as [|c s IH]; [done|]. cbn [Ingestion.all_chars Ingestion.strip_symbols].
  intros [Hc Hs]%andb_prop. rewrite Hc. by rewrite IH.
Qed.

Lemma strip_symbols_length s :
  (String.length (Ingestion.strip_symbols s) ≤ String.length s)%nat.
Proof.
  induction s as [|c s IH]; [done|]. cbn [Ingestion.strip_symbols].
  destruct (Ingestion.kept c); simpl; lia.
Qed.

Lemma strip_symbols_app s t :
  Ingestion.strip_symbols (s +:+ t) = Ingestion.strip_symbols s +:+ Ingestion.strip_symbols t.
Proof.
  induction s as [|c s IH]; [done|]. rewrite str_app_cons. cbn [Ingestion.strip_symbols].
  destruct (Ingestion.kept c); [by rewrite str_app_cons, IH | done].
Qed.

(** [remove_emojis] is a clean-up that settles at once: its result holds
    only letters, digits, the listed punctuation and whitespace; a text made
    of such characters comes back as it is, so cleaning twice is cleaning
    once; the text never grows; cleaning a concatenation is concatenating
    the cleaned parts; and a value that is not a string is returned
    untouched. *)
Theorem remove_emojis_settles (s t : string) (tag : nat) :
  Ingestion.remove_emojis (Ingestion.remove_emojis (Ingestion.Str s))
  = Ingestion.remove_emojis (Ingestion.Str s) ∧
  (∃ r, Ingestion.remove_emojis (Ingestion.Str s) = Ingestion.Str r ∧
        Ingestion.all_chars Ingestion.kept r = true ∧
        (String.length r ≤ String.length s)%nat) ∧
  (Ingestion.all_chars Ingestion.kept s = true →
   Ingestion.remove_emojis (Ingestion.Str s) = Ingestion.Str s) ∧
  Ingestion.strip_symbols (s +:+ t)
  = Ingestion.strip_symbols s +:+ Ingestion.strip_symbols t ∧
  Ingestion.remove_emojis (Ingestion.Other tag) = Ingestion.Other tag.
Proof.
  repeat split.
  - simpl. f_equal. apply strip_symbols_fixed, strip_symbols_kept.
  - eexists. split; [reflexivity|]. split; [apply strip_symbols_kept | apply strip_symbols_length].
  - intros H. simpl. f_equal. by apply strip_symbols_fixed.
  - apply strip_symbols_app.
Qed.

(** A review with symbols the pattern does not list. *)
Lemma remove_emojis_settles_witness :
  Ingestion.remove_emojis (Ingestion.Str "Great phone!! #1 @home (really) 100% - ok_")
  = Ingestion.Str "Great phone!! 1 home (really) 100 - ok" ∧
  Ingestion.remove_emojis (Ingestion.Str "Great phone!! 1 home (really) 100 - ok")
  = Ingestion.Str "Great phone!! 1 home (really) 100 - ok".
Proof.
  split; [reflexivity|].
  apply (remove_emojis_settles "Great phone!! 1 home (really) 100 - ok" "" 0). reflexivity.
Defined.

(** ** Relative dates *)











(** ** The run over the two input files *)

(** When the mobile file is missing and the reviews file is there,
    [main] of [ingestion.py] does not get to clean the reviews: having
    logged the missing file, read the reviews and logged their number, it
    reads [valid_product_ids], which only the mobile branch binds, and
    raises [UnboundLocalError]; no file has been written. *)
Theorem main_needs_the_mobile_file (F : IngestionRun.Frames) (cfg : IngestionRun.Config)
    (s : IngestionRun.State F) (df : IngestionRun.DF F) :
  IngestionRun.files s !! IngestionRun.MOBILE_FILE cfg = None →
  is_Some (IngestionRun.files s !! IngestionRun.REVIEWS_FILE cfg) →
  IngestionRun.read_csv F (IngestionRun.REVIEWS_FILE cfg) = inr df →
  IngestionRun.main cfg s
  = (inl (Exception "UnboundLocalError" "valid_product_ids"),
     IngestionRun.mkState (IngestionRun.files s)
       (IngestionRun.log s ++
        ["WARNING: Mobile file not found: " +:+ IngestionRun.MOBILE_FILE cfg;
         "INFO: Raw reviews: " +:+ IngestionRun.str_nat (IngestionRun.rows F df) +:+ " rows"])).
Proof.
  intros Hmobile Hreviews Hread.
  unfold IngestionRun.main, IngestionRun.rbind, IngestionRun.path_exists,
    IngestionRun.logging, IngestionRun.rret, IngestionRun.rlift, IngestionRun.rraise.
  rewrite Hmobile. rewrite bool_decide_eq_false_2 by (by intros [? ?]).
  cbn [IngestionRun.files IngestionRun.log].
  rewrite bool_decide_eq_true_2 by done. rewrite Hread.
  cbn [IngestionRun.files IngestionRun.log]. by rewrite <- app_assoc.
Qed.

(** Only [my_docs/review.csv] is there, with three rows. *)
Lemma main_needs_the_mobile_file_witness :
  IngestionRun.main IngestionRun.default_config IngestionRun.reviews_only
  = (inl (Exception "UnboundLocalError" "valid_product_ids"),
     IngestionRun.mkState (IngestionRun.files IngestionRun.reviews_only)
       ["WARNING: Mobile file not found: my_docs/mobile.csv";
        "INFO: Raw reviews: 3 rows"]).
Proof.
  apply (main_needs_the_mobile_file IngestionRun.demo_frames IngestionRun.default_config
           IngestionRun.reviews_only ["r1"; "r2"; "r3"]);
    [reflexivity | by eexists | reflexivity].
Defined.
